(** * pg_qos: a shallow embedding of the QoS resource governor in Rocq

    The C sources of the extension (qos.h, qos.c, hooks_cache.c,
    hooks_statement.c, hooks_transaction.c, hooks_resource.c) are
    translated function by function.  Integers of the C code are [Z];
    strings are [string]; the shared-memory region is an explicit record
    that each operation takes and returns; the backend-status array is a
    [list] updated with stdpp's [<[i := s]>].

    The concurrency-admission functions exist in two revisions in the
    sources: one keeps counters [active_selects], [active_transactions]
    that the current [QoSSharedState] of qos.h no longer has, the other
    scans the per-backend [backend_status] array declared in qos.h.  The
    second one is the one embedded here. *)

From Stdlib Require Import String Ascii ZArith Bool Lia.
From stdpp Require Import base list.

Open Scope Z_scope.

(* ===================================================================== *)
(** ** qos.h: the limit model *)
(* ===================================================================== *)

Module Limits.

(** [QoSLimits]: every field is a C integer, [-1] meaning "no limit". *)
Record QoSLimits := mkLimits {
  work_mem_limit : Z;
  cpu_core_limit : Z;
  max_concurrent_tx : Z;
  max_concurrent_select : Z;
  max_concurrent_update : Z;
  max_concurrent_delete : Z;
  max_concurrent_insert : Z;
  work_mem_error_level : Z
}.

(** [QoSWorkMemErrorLevel] *)
Definition QOS_WORK_MEM_ERROR_WARNING : Z := 0.
Definition QOS_WORK_MEM_ERROR_ERROR : Z := 1.

(** The defaults written by [qos_get_role_limits] and
    [qos_get_database_limits] before the catalog is read. *)
Definition default_limits : QoSLimits :=
  mkLimits (-1) (-1) (-1) (-1) (-1) (-1) (-1) (-1).

(** hooks_cache.c: [static QoSLimits cached_limits = {-1, -1, -1, -1, -1,
    -1, -1};] has seven initialisers for eight members, so C
    zero-initialises the last one, [work_mem_error_level]. *)
Definition cached_limits_init : QoSLimits :=
  mkLimits (-1) (-1) (-1) (-1) (-1) (-1) (-1) 0.

(** The [CALC_LIMIT(field)] macro of [qos_refresh_cached_limits]. *)
Definition calc_limit (role_v db_v : Z) : Z :=
  if (role_v >=? 0) && (db_v >=? 0) then Z.min role_v db_v
  else if role_v >=? 0 then role_v
  else if db_v >=? 0 then db_v
  else -1.

(** The session-local statics of hooks_cache.c. *)
Record SessionCache := mkCache {
  cached_limits : QoSLimits;
  cached_user_id : Z;
  cached_db_id : Z;
  limits_cached : bool;
  last_seen_epoch : Z
}.

Definition InvalidOid : Z := 0.

Definition cache_init : SessionCache :=
  mkCache cached_limits_init InvalidOid InvalidOid false (-1).

(** The catalog, as seen by the session at the time of a read: the
    results of [qos_get_role_limits] and [qos_get_database_limits]. *)
Record CatalogView := mkView {
  role_limits_of : Z -> QoSLimits;
  db_limits_of : Z -> QoSLimits
}.

(** [qos_refresh_cached_limits].  [shm_epoch] is
    [qos_shared_state->settings_epoch] ([None] when
    [qos_shared_state] is NULL).  The boolean result tells whether the
    catalog was read. *)
Definition qos_refresh_cached_limits (shm_epoch : option Z)
    (current_user_id current_db_id : Z) (cat : CatalogView)
    (c : SessionCache) : SessionCache * bool :=
  (* If shared settings epoch changed, force invalidate *)
  let c1 :=
    match shm_epoch with
    | Some e =>
        if negb (last_seen_epoch c =? e)
        then mkCache (cached_limits c) (cached_user_id c) (cached_db_id c) false e
        else c
    | None => c
    end in
  (* If cache still valid for same user/db, return *)
  if limits_cached c1 && (cached_user_id c1 =? current_user_id)
     && (cached_db_id c1 =? current_db_id)
  then (c1, false)
  else
    let role_limits := role_limits_of cat current_user_id in
    let db_limits := db_limits_of cat current_db_id in
    let old := cached_limits c1 in
    let new_limits :=
      mkLimits
        (calc_limit (work_mem_limit role_limits) (work_mem_limit db_limits))
        (calc_limit (cpu_core_limit role_limits) (cpu_core_limit db_limits))
        (calc_limit (max_concurrent_tx role_limits) (max_concurrent_tx db_limits))
        (calc_limit (max_concurrent_select role_limits) (max_concurrent_select db_limits))
        (calc_limit (max_concurrent_update role_limits) (max_concurrent_update db_limits))
        (calc_limit (max_concurrent_delete role_limits) (max_concurrent_delete db_limits))
        (calc_limit (max_concurrent_insert role_limits) (max_concurrent_insert db_limits))
        (* CALC_LIMIT is not applied to work_mem_error_level *)
        (work_mem_error_level old) in
    (mkCache new_limits current_user_id current_db_id true (last_seen_epoch c1), true).

(** [qos_get_cached_limits] *)
Definition qos_get_cached_limits (shm_epoch : option Z)
    (uid dbid : Z) (cat : CatalogView) (c : SessionCache)
    : QoSLimits * SessionCache :=
  let (c', _) := qos_refresh_cached_limits shm_epoch uid dbid cat c in
  (cached_limits c', c').



(** The seven numeric fields the fold is about. *)
Definition limit_fields : list (QoSLimits -> Z) :=
  [work_mem_limit; cpu_core_limit; max_concurrent_tx; max_concurrent_select;
   max_concurrent_update; max_concurrent_delete; max_concurrent_insert].

End Limits.

(* ===================================================================== *)
(** ** Errors reported through [ereport(ERROR, ...)] *)
(* ===================================================================== *)

Module Err.

(** The SQLSTATE codes used by the extension. *)
Inductive SqlState :=
| ERRCODE_INTERNAL_ERROR            (* the default of a bare ereport(ERROR) *)
| ERRCODE_PROGRAM_LIMIT_EXCEEDED
| ERRCODE_INSUFFICIENT_RESOURCES
| ERRCODE_TOO_MANY_CONNECTIONS.

Record PgError := mkErr {
  err_code : SqlState;
  err_msg : string;
  err_detail : string;
  err_hint : string
}.

(** A computation that returns normally or leaves by [ereport(ERROR)]. *)
Inductive Outcome (A : Type) :=
| Ret (a : A)
| Raise (e : PgError).
Arguments Ret {A} a.
Arguments Raise {A} e.

(** The double-quote character of the C format strings. *)
Definition dq : string := String (ascii_of_nat 34) EmptyString.

(** [%d] and [%ld]: decimal rendering of a C integer. *)
Fixpoint digits_of_nat (fuel n : nat) (acc : string) : string :=
  match fuel with
  | O => acc
  | S fuel' =>
      let acc' := String (ascii_of_nat (48 + Nat.modulo n 10)) acc in
      if Nat.ltb n 10 then acc' else digits_of_nat fuel' (Nat.div n 10) acc'
  end.

Definition string_of_Z (z : Z) : string :=
  let body := digits_of_nat (S (Z.to_nat (Z.log2_up (Z.abs z + 1))))
                            (Z.abs_nat z) EmptyString in
  if z <? 0 then String "-" body else body.


End Err.

(* ===================================================================== *)
(** ** qos.c: parsing of [name=value] entries *)
(* ===================================================================== *)

Module Parse.
Import Limits Err.

Definition INT64_MAX : Z := 9223372036854775807.
Definition INT64_MIN : Z := -9223372036854775808.
Definition INT_MAX : Z := 2147483647.

(** <ctype.h> in the C locale. *)
Definition isspace (c : ascii) : bool :=
  let n := nat_of_ascii c in (n =? 32)%nat || ((9 <=? n)%nat && (n <=? 13)%nat).
Definition isdigit (c : ascii) : bool :=
  let n := nat_of_ascii c in (48 <=? n)%nat && (n <=? 57)%nat.
Definition isupper (c : ascii) : bool :=
  let n := nat_of_ascii c in (65 <=? n)%nat && (n <=? 90)%nat.
Definition islower (c : ascii) : bool :=
  let n := nat_of_ascii c in (97 <=? n)%nat && (n <=? 122)%nat.
Definition isalpha (c : ascii) : bool := isupper c || islower c.
Definition tolower (c : ascii) : ascii :=
  if isupper c then ascii_of_nat (nat_of_ascii c + 32) else c.

Fixpoint lower (s : string) : string :=
  match s with
  | EmptyString => EmptyString
  | String c s' => String (tolower c) (lower s')
  end.

(** [pg_strcasecmp(a, b) == 0] and [strcasecmp(a, b) == 0] (ASCII). *)
Definition strcaseeq (a b : string) : bool := String.eqb (lower a) (lower b).

(** [pg_strncasecmp(s, p, length p) == 0] for a prefix [p] without NUL. *)
Definition strncaseeq_prefix (s p : string) : bool :=
  String.eqb (lower (substring 0 (String.length p) s)) (lower p).

Fixpoint skip_space (s : string) : string :=
  match s with
  | String c s' => if isspace c then skip_space s' else s
  | EmptyString => EmptyString
  end.

(** The longest prefix of decimal digits, as a number and a count. *)
Fixpoint scan_digits (s : string) (acc : Z) (n : nat) : Z * nat * string :=
  match s with
  | String c s' =>
      if isdigit c then scan_digits s' (10 * acc + (Z.of_nat (nat_of_ascii c) - 48)) (S n)
      else (acc, n, s)
  | EmptyString => (acc, n, EmptyString)
  end.

(** [strtoll(str, &endptr, 10)] (and [strtol] with a 64-bit [long]):
    [None] when no digits were consumed ([endptr == str]); otherwise the
    value, the text at [endptr], and whether [errno] became [ERANGE]
    (the value is then clamped). *)
Definition strtoll (str : string) : option (Z * string * bool) :=
  let s1 := skip_space str in
  let '(neg, s2) :=
    match s1 with
    | String "-" s' => (true, s')
    | String "+" s' => (false, s')
    | _ => (false, s1)
    end in
  let '(mag, n, rest) := scan_digits s2 0 O in
  if (n =? 0)%nat then None
  else
    let v := if neg then - mag else mag in
    if v >? INT64_MAX then Some (INT64_MAX, rest, true)
    else if v <? INT64_MIN then Some (INT64_MIN, rest, true)
    else Some (v, rest, false).

(** [qos_parse_memory_value]: [Some bytes] when it returns true, [None]
    on the [invalid] label (the strict/non-strict reporting is done by
    the caller, see [report_invalid]). *)
Definition qos_parse_memory_value (value_str : string) : option Z :=
  if String.eqb value_str EmptyString then None else
  match strtoll value_str with
  | None => None
  | Some (_, _, true) => None
  | Some (base, endptr, false) =>
      let suffix := skip_space endptr in
      let has_suffix := negb (String.eqb suffix EmptyString) in
      let multiplier :=
        if negb has_suffix then Some 1
        else if strcaseeq suffix "kb" || strcaseeq suffix "k" then Some 1024
        else if strcaseeq suffix "mb" || strcaseeq suffix "m" then Some (1024 * 1024)
        else if strcaseeq suffix "gb" || strcaseeq suffix "g" then Some (1024 * 1024 * 1024)
        else None in
      match multiplier with
      | None => None
      | Some multiplier =>
          if (base =? -1) && has_suffix then None
          else if base <? -1 then None
          else if (base >? 0) && (multiplier >? 1) && (base >? INT64_MAX / multiplier)
          then None
          else Some (base * multiplier)
      end
  end.


(** [qos_parse_int32_value]: [strtol] must consume the whole string;
    [-1] is accepted when [allow_negative_one]; otherwise the value must
    lie in [min_value, max_value]. *)
Definition qos_parse_int32_value (value_str : string) (min_value max_value : Z)
    (allow_negative_one : bool) : option Z :=
  if String.eqb value_str EmptyString then None else
  match strtoll value_str with
  | None => None
  | Some (value, endptr, erange) =>
      if negb (String.eqb endptr EmptyString) || erange then None
      else if allow_negative_one && (value =? -1) then Some (-1)
      else if (value <? min_value) || (value >? max_value) then None
      else Some value
  end.

(** [qos_parse_work_mem_error_level] *)
Definition qos_parse_work_mem_error_level (value_str : string) : bool :=
  negb (String.eqb value_str EmptyString)
  && (strcaseeq value_str "warning" || strcaseeq value_str "error").

(** [qos_is_valid_qos_param_name_internal] (exact, case-sensitive). *)
Definition qos_valid_param_names : list string :=
  ["qos.work_mem_limit"; "qos.cpu_core_limit"; "qos.max_concurrent_tx";
   "qos.max_concurrent_select"; "qos.max_concurrent_update";
   "qos.max_concurrent_delete"; "qos.max_concurrent_insert"; "qos.enabled";
   "qos.work_mem_error_level"]%string.

Definition qos_is_valid_qos_param_name (name : string) : bool :=
  existsb (String.eqb name) qos_valid_param_names.

(** [qos_trim_whitespace] *)
Fixpoint drop_trailing_space_rev (l : list ascii) : list ascii :=
  match l with
  | c :: l' => if isspace c then drop_trailing_space_rev l' else l
  | [] => []
  end.

Definition qos_trim_whitespace (s : string) : string :=
  string_of_list_ascii
    (rev (drop_trailing_space_rev (rev (list_ascii_of_string (skip_space s))))).


(** The result of [qos_apply_qos_param_value]: its boolean result with the
    (possibly updated) [*limits], or an error raised in strict mode. *)
Definition report_invalid (strict : bool) (msg : string) (limits : QoSLimits)
    : Outcome (bool * QoSLimits) :=
  if strict then Raise (mkErr ERRCODE_INTERNAL_ERROR msg EmptyString EmptyString)
  else Ret (false, limits).

Definition set_work_mem_limit (l : QoSLimits) (v : Z) : QoSLimits :=
  mkLimits v (cpu_core_limit l) (max_concurrent_tx l) (max_concurrent_select l)
    (max_concurrent_update l) (max_concurrent_delete l) (max_concurrent_insert l)
    (work_mem_error_level l).
Definition set_cpu_core_limit (l : QoSLimits) (v : Z) : QoSLimits :=
  mkLimits (work_mem_limit l) v (max_concurrent_tx l) (max_concurrent_select l)
    (max_concurrent_update l) (max_concurrent_delete l) (max_concurrent_insert l)
    (work_mem_error_level l).
Definition set_max_concurrent_tx (l : QoSLimits) (v : Z) : QoSLimits :=
  mkLimits (work_mem_limit l) (cpu_core_limit l) v (max_concurrent_select l)
    (max_concurrent_update l) (max_concurrent_delete l) (max_concurrent_insert l)
    (work_mem_error_level l).
Definition set_max_concurrent_select (l : QoSLimits) (v : Z) : QoSLimits :=
  mkLimits (work_mem_limit l) (cpu_core_limit l) (max_concurrent_tx l) v
    (max_concurrent_update l) (max_concurrent_delete l) (max_concurrent_insert l)
    (work_mem_error_level l).
Definition set_max_concurrent_update (l : QoSLimits) (v : Z) : QoSLimits :=
  mkLimits (work_mem_limit l) (cpu_core_limit l) (max_concurrent_tx l)
    (max_concurrent_select l) v (max_concurrent_delete l) (max_concurrent_insert l)
    (work_mem_error_level l).
Definition set_max_concurrent_delete (l : QoSLimits) (v : Z) : QoSLimits :=
  mkLimits (work_mem_limit l) (cpu_core_limit l) (max_concurrent_tx l)
    (max_concurrent_select l) (max_concurrent_update l) v (max_concurrent_insert l)
    (work_mem_error_level l).
Definition set_max_concurrent_insert (l : QoSLimits) (v : Z) : QoSLimits :=
  mkLimits (work_mem_limit l) (cpu_core_limit l) (max_concurrent_tx l)
    (max_concurrent_select l) (max_concurrent_update l) (max_concurrent_delete l) v
    (work_mem_error_level l).
Definition set_work_mem_error_level (l : QoSLimits) (v : Z) : QoSLimits :=
  mkLimits (work_mem_limit l) (cpu_core_limit l) (max_concurrent_tx l)
    (max_concurrent_select l) (max_concurrent_update l) (max_concurrent_delete l)
    (max_concurrent_insert l) v.

(** One [if (strcmp(name, "qos.max_concurrent_...") == 0)] branch for the
    32-bit limits. *)
Definition apply_int_field (setter : QoSLimits -> Z -> QoSLimits)
    (limits : QoSLimits) (name trimmed_value : string) (strict : bool)
    : Outcome (bool * QoSLimits) :=
  match qos_parse_int32_value trimmed_value 0 INT_MAX true with
  | None => report_invalid strict ("qos: invalid value for " ++ name ++ ": " ++ dq
                                   ++ trimmed_value ++ dq) limits
  | Some v => Ret (true, setter limits v)
  end.

(** [qos_apply_qos_param_value(limits, name, value, strict)]; [value] is
    [None] for a NULL pointer. *)
Definition qos_apply_qos_param_value (limits : QoSLimits) (name : string)
    (value : option string) (strict : bool) : Outcome (bool * QoSLimits) :=
  if negb (strncaseeq_prefix name "qos.") then Ret (false, limits)
  else if negb (qos_is_valid_qos_param_name name) then
    report_invalid strict ("qos: invalid parameter name " ++ dq ++ name ++ dq) limits
  else if String.eqb name "qos.enabled" then Ret (true, limits)
  else
  match value with
  | None => report_invalid strict ("qos: missing value for parameter " ++ dq ++ name ++ dq)
                           limits
  | Some value =>
    let trimmed_value := qos_trim_whitespace value in
    if String.eqb name "qos.work_mem_limit" then
      match qos_parse_memory_value trimmed_value with
      | None => report_invalid strict ("qos: invalid value for " ++ name ++ ": " ++ dq
                                       ++ trimmed_value ++ dq) limits
      | Some m => Ret (true, set_work_mem_limit limits m)
      end
    else if String.eqb name "qos.cpu_core_limit" then
      apply_int_field set_cpu_core_limit limits name trimmed_value strict
    else if String.eqb name "qos.max_concurrent_tx" then
      apply_int_field set_max_concurrent_tx limits name trimmed_value strict
    else if String.eqb name "qos.max_concurrent_select" then
      apply_int_field set_max_concurrent_select limits name trimmed_value strict
    else if String.eqb name "qos.max_concurrent_update" then
      apply_int_field set_max_concurrent_update limits name trimmed_value strict
    else if String.eqb name "qos.max_concurrent_delete" then
      apply_int_field set_max_concurrent_delete limits name trimmed_value strict
    else if String.eqb name "qos.max_concurrent_insert" then
      apply_int_field set_max_concurrent_insert limits name trimmed_value strict
    else if String.eqb name "qos.work_mem_error_level" then
      if negb (qos_parse_work_mem_error_level trimmed_value)
      then report_invalid strict ("qos: invalid value for " ++ name ++ ": " ++ dq
                                  ++ trimmed_value ++ dq) limits
      else Ret (true, set_work_mem_error_level limits
                        (if strcaseeq trimmed_value "error"
                         then QOS_WORK_MEM_ERROR_ERROR else QOS_WORK_MEM_ERROR_WARNING))
    else Ret (false, limits)
  end.


End Parse.

(* ===================================================================== *)
(** ** qos.c: the catalog reader over [pg_db_role_setting] *)
(* ===================================================================== *)

Module Catalog.
Import Limits Err Parse.

(** A row of [pg_db_role_setting]; [setconfig] is a nullable [text[]]
    whose elements are nullable too. *)
Record DbRoleSetting := mkRow {
  setdatabase : Z;
  setrole : Z;
  setconfig : option (list (option string))
}.

Inductive LockMode := AccessShareLock | RowExclusiveLock.

(** The catalog operations performed, in order. *)
Inductive CatEvent :=
| TableOpen (m : LockMode)
| BeginScan
| GetNext
| CatalogTupleUpdate (newconfig : list (option string))
| EndScan
| TableClose (m : LockMode).

(** [strchr(copy, '=')] splitting: the text before and after the first
    [=]. *)
Fixpoint split_at_eq (s : string) : option (string * string) :=
  match s with
  | EmptyString => None
  | String c s' =>
      if Ascii.eqb c "=" then Some (EmptyString, s')
      else match split_at_eq s' with
           | Some (n, v) => Some (String c n, v)
           | None => None
           end
  end.

Definition outcome_bool (o : Outcome (bool * QoSLimits)) : bool :=
  match o with Ret (b, _) => b | Raise _ => false end.

(** [qos_is_valid_qos_setting_entry] *)
Definition qos_is_valid_qos_setting_entry (config_str : string) : bool :=
  match split_at_eq config_str with
  | None => false
  | Some (name, value) =>
      let name := qos_trim_whitespace name in
      let value := qos_trim_whitespace value in
      if negb (strncaseeq_prefix name "qos.") then true
      else outcome_bool (qos_apply_qos_param_value default_limits name (Some value) false)
  end.

Fixpoint span (p : ascii -> bool) (s : string) : string * string :=
  match s with
  | String c s' => if p c then let (a, b) := span p s' in (String c a, b) else (EmptyString, s)
  | EmptyString => (EmptyString, EmptyString)
  end.

(** [qos_normalize_work_mem_value] *)
Definition qos_normalize_work_mem_value (value_str : string) : option string :=
  let ptr := skip_space value_str in
  let (num_part, ptr) := span isdigit ptr in
  if String.eqb num_part EmptyString then None else
  let ptr := skip_space ptr in
  let (unit_part, ptr) := span isalpha ptr in
  if negb (String.eqb ptr EmptyString) then None else
  let normalized_unit :=
    if String.eqb unit_part EmptyString then Some "MB"%string
    else if strcaseeq unit_part "k" || strcaseeq unit_part "kb" then Some "kB"%string
    else if strcaseeq unit_part "m" || strcaseeq unit_part "mb" then Some "MB"%string
    else if strcaseeq unit_part "g" || strcaseeq unit_part "gb" then Some "GB"%string
    else None in
  match normalized_unit with
  | None => None
  | Some u => Some (num_part ++ u)%string
  end.

(** The function-local statics of [qos_cleanup_invalid_qos_settings]. *)
Record CleanState := mkClean {
  last_cleaned_db : Z;
  last_cleaned_role : Z;
  last_cleaned_cmdid : Z
}.

Definition InvalidCommandId : Z := 4294967295.

Definition clean_init : CleanState := mkClean InvalidOid InvalidOid InvalidCommandId.

(** The loop of [qos_cleanup_invalid_qos_settings]: the kept elements
    and the [removed] flag. *)
Fixpoint cleanup_loop (elems : list (option string)) : list (option string) * bool :=
  match elems with
  | [] => ([], false)
  | None :: rest => let (kept, removed) := cleanup_loop rest in (kept, true)
  | Some config_str :: rest =>
      let (kept, removed) := cleanup_loop rest in
      if strncaseeq_prefix config_str "qos." then
        if negb (qos_is_valid_qos_setting_entry config_str) then (kept, true)
        else
          match split_at_eq config_str with
          | Some (name, value) =>
              let name := qos_trim_whitespace name in
              let value := qos_trim_whitespace value in
              if String.eqb name "qos.work_mem_limit" then
                match qos_normalize_work_mem_value value with
                | Some nv =>
                    if negb (String.eqb nv value)
                    then (Some (name ++ "=" ++ nv)%string :: kept, true)
                    else (Some config_str :: kept, removed)
                | None => (Some config_str :: kept, removed)
                end
              else (Some config_str :: kept, removed)
          | None => (Some config_str :: kept, removed)
          end
      else (Some config_str :: kept, removed)
  end.

(** [qos_cleanup_invalid_qos_settings(rel, tuple, configs)]: the array
    handed on to [parse_role_configs], the configuration written back by
    [CatalogTupleUpdate] if any, and the new statics. *)
Definition qos_cleanup_invalid_qos_settings (cmdid : Z) (row : DbRoleSetting)
    (configs : list (option string)) (st : CleanState)
    : list (option string) * option (list (option string)) * CleanState :=
  if (length configs =? 0)%nat then (configs, None, st)
  else if (cmdid =? last_cleaned_cmdid st) && (setdatabase row =? last_cleaned_db st)
          && (setrole row =? last_cleaned_role st)
  then (configs, None, st)
  else
    let (kept, removed) := cleanup_loop configs in
    if negb removed then (configs, None, st)
    else (kept, Some kept, mkClean (setdatabase row) (setrole row) cmdid).

(** [parse_role_configs] *)
Definition parse_one (limits : QoSLimits) (e : option string) : QoSLimits :=
  match e with
  | None => limits
  | Some config_str =>
      match split_at_eq config_str with
      | Some (name, value) =>
          let name := qos_trim_whitespace name in
          let value := qos_trim_whitespace value in
          if strncaseeq_prefix name "qos." then
            match qos_apply_qos_param_value limits name (Some value) false with
            | Ret (_, l) => l
            | Raise _ => limits
            end
          else limits
      | None => limits
      end
  end.

Definition parse_role_configs (configs : list (option string)) (limits : QoSLimits)
    : QoSLimits :=
  fold_left parse_one configs limits.

(** [systable_getnext] on the unique index [(setdatabase, setrole)]. *)
Definition find_row (key_db key_role : Z) (cat : list DbRoleSetting)
    : option DbRoleSetting :=
  List.find (fun r => (setdatabase r =? key_db) && (setrole r =? key_role)) cat.

Definition replace_config (key_db key_role : Z) (newconfig : list (option string))
    (cat : list DbRoleSetting) : list DbRoleSetting :=
  map (fun r => if (setdatabase r =? key_db) && (setrole r =? key_role)
                then mkRow (setdatabase r) (setrole r) (Some newconfig) else r) cat.

(** The common body of [qos_get_role_limits] and [qos_get_database_limits]:
    the limits read, the catalog operations, the catalog afterwards and
    the cleanup statics afterwards. *)
Definition qos_scan_limits (key_db key_role cmdid : Z) (cat : list DbRoleSetting)
    (st : CleanState)
    : QoSLimits * list CatEvent * list DbRoleSetting * CleanState :=
  let limits := default_limits in
  let opening := [TableOpen RowExclusiveLock; BeginScan; GetNext] in
  let closing := [EndScan; TableClose RowExclusiveLock] in
  match find_row key_db key_role cat with
  | Some row =>
      match setconfig row with
      | Some configs =>
          let '(cleaned, upd, st') := qos_cleanup_invalid_qos_settings cmdid row configs st in
          let limits' := parse_role_configs cleaned limits in
          match upd with
          | Some newconfig =>
              (limits', opening ++ [CatalogTupleUpdate newconfig] ++ closing,
               replace_config key_db key_role newconfig cat, st')
          | None => (limits', opening ++ closing, cat, st')
          end
      | None => (limits, opening ++ closing, cat, st)
      end
  | None => (limits, opening ++ closing, cat, st)
  end.

(** [qos_get_role_limits(roleId)]: key [(InvalidOid, roleId)]. *)
Definition qos_get_role_limits (roleId cmdid : Z) (cat : list DbRoleSetting)
    (st : CleanState) :=
  qos_scan_limits InvalidOid roleId cmdid cat st.

(** [qos_get_database_limits(dbId)]: key [(dbId, InvalidOid)]. *)
Definition qos_get_database_limits (dbId cmdid : Z) (cat : list DbRoleSetting)
    (st : CleanState) :=
  qos_scan_limits dbId InvalidOid cmdid cat st.


End Catalog.

(* ===================================================================== *)
(** ** hooks_statement.c / hooks_transaction.c: concurrency admission *)
(* ===================================================================== *)

Module Admission.
Import Limits Err.

(** [CmdType] of nodes.h. *)
Inductive CmdType :=
| CMD_UNKNOWN | CMD_SELECT | CMD_UPDATE | CMD_INSERT | CMD_DELETE
| CMD_MERGE | CMD_UTILITY | CMD_NOTHING.

Definition cmd_eqb (a b : CmdType) : bool :=
  match a, b with
  | CMD_UNKNOWN, CMD_UNKNOWN | CMD_SELECT, CMD_SELECT | CMD_UPDATE, CMD_UPDATE
  | CMD_INSERT, CMD_INSERT | CMD_DELETE, CMD_DELETE | CMD_MERGE, CMD_MERGE
  | CMD_UTILITY, CMD_UTILITY | CMD_NOTHING, CMD_NOTHING => true
  | _, _ => false
  end.


(** [QoSBackendStatus] *)
Record BackendStatus := mkStatus {
  pid : Z;
  role_oid : Z;
  database_oid : Z;
  cmd_type : CmdType;
  in_transaction : bool
}.

(** A slot as [qos_shmem_startup] initialises it. *)
Definition empty_slot : BackendStatus := mkStatus 0 InvalidOid InvalidOid CMD_UNKNOWN false.

(** [QoSStats] *)
Record QoSStats := mkStats {
  total_queries : Z;
  throttled_queries : Z;
  rejected_queries : Z;
  work_mem_violations : Z;
  cpu_violations : Z;
  concurrent_tx_violations : Z;
  concurrent_select_violations : Z;
  concurrent_update_violations : Z;
  concurrent_delete_violations : Z;
  concurrent_insert_violations : Z
}.

Definition stats_zero : QoSStats := mkStats 0 0 0 0 0 0 0 0 0 0.

(** The [stats.<field>++] statements. *)
Definition bump_rejected (s : QoSStats) : QoSStats :=
  mkStats (total_queries s) (throttled_queries s) (rejected_queries s + 1)
    (work_mem_violations s) (cpu_violations s) (concurrent_tx_violations s)
    (concurrent_select_violations s) (concurrent_update_violations s)
    (concurrent_delete_violations s) (concurrent_insert_violations s).
Definition bump_tx (s : QoSStats) : QoSStats :=
  mkStats (total_queries s) (throttled_queries s) (rejected_queries s)
    (work_mem_violations s) (cpu_violations s) (concurrent_tx_violations s + 1)
    (concurrent_select_violations s) (concurrent_update_violations s)
    (concurrent_delete_violations s) (concurrent_insert_violations s).
Definition bump_select (s : QoSStats) : QoSStats :=
  mkStats (total_queries s) (throttled_queries s) (rejected_queries s)
    (work_mem_violations s) (cpu_violations s) (concurrent_tx_violations s)
    (concurrent_select_violations s + 1) (concurrent_update_violations s)
    (concurrent_delete_violations s) (concurrent_insert_violations s).
Definition bump_update (s : QoSStats) : QoSStats :=
  mkStats (total_queries s) (throttled_queries s) (rejected_queries s)
    (work_mem_violations s) (cpu_violations s) (concurrent_tx_violations s)
    (concurrent_select_violations s) (concurrent_update_violations s + 1)
    (concurrent_delete_violations s) (concurrent_insert_violations s).
Definition bump_delete (s : QoSStats) : QoSStats :=
  mkStats (total_queries s) (throttled_queries s) (rejected_queries s)
    (work_mem_violations s) (cpu_violations s) (concurrent_tx_violations s)
    (concurrent_select_violations s) (concurrent_update_violations s)
    (concurrent_delete_violations s + 1) (concurrent_insert_violations s).
Definition bump_insert (s : QoSStats) : QoSStats :=
  mkStats (total_queries s) (throttled_queries s) (rejected_queries s)
    (work_mem_violations s) (cpu_violations s) (concurrent_tx_violations s)
    (concurrent_select_violations s) (concurrent_update_violations s)
    (concurrent_delete_violations s) (concurrent_insert_violations s + 1).

(** The part of [QoSSharedState] that admission uses; [max_backends] is
    the length of [backend_status]. *)
Record SharedState := mkShared {
  stats : QoSStats;
  backend_status : list BackendStatus
}.

(** The per-backend statics of hooks_statement.c and hooks_transaction.c. *)
Record BackendLocal := mkLocal {
  current_statement_type : CmdType;
  statement_tracked : bool;
  transaction_tracked : bool
}.

Definition local_init : BackendLocal := mkLocal CMD_UNKNOWN false false.

(** What the backend itself knows: [MyBackendId - 1], [MyProcPid],
    [GetUserId()], [MyDatabaseId]. *)
Record Proc := mkProc {
  my_slot : nat;
  my_pid : Z;
  my_user : Z;
  my_db : Z
}.

(** The end of an admission function: normal return, or [ereport(ERROR)]
    after the shared state has been updated and the lock released. *)
Inductive AdmitResult :=
| Proceed (sh : SharedState) (loc : BackendLocal)
| Refused (e : PgError) (sh : SharedState) (loc : BackendLocal).

(** The scan loop: slots with [pid == 0] and the caller's own slot are
    skipped, the others are counted when [p] holds. *)
Fixpoint count_peers (i : nat) (slots : list BackendStatus) (me : nat)
    (p : BackendStatus -> bool) : Z :=
  match slots with
  | [] => 0
  | s :: rest =>
      (if pid s =? 0 then 0 else if (i =? me)%nat then 0 else if p s then 1 else 0)
      + count_peers (S i) rest me p
  end.

(** The predicates of the two scans. *)
Definition stmt_match (role db : Z) (k : CmdType) (s : BackendStatus) : bool :=
  (role_oid s =? role) && (database_oid s =? db) && cmd_eqb (cmd_type s) k.
Definition tx_match (role db : Z) (s : BackendStatus) : bool :=
  (role_oid s =? role) && (database_oid s =? db) && in_transaction s.

Definition slot_of (slots : list BackendStatus) (i : nat) : BackendStatus :=
  default empty_slot (slots !! i).

Definition kind_name (op : CmdType) : string :=
  match op with
  | CMD_SELECT => "SELECT" | CMD_UPDATE => "UPDATE" | CMD_DELETE => "DELETE"
  | _ => "INSERT"
  end.

Definition detail_current_max (count limit : Z) : string :=
  "Current: " ++ string_of_Z count ++ ", Maximum: " ++ string_of_Z limit.

(** The [switch (operation)] selecting the limit ([None] = [default: return]). *)
Definition stmt_limit (limits : QoSLimits) (op : CmdType) : option Z :=
  match op with
  | CMD_SELECT => Some (max_concurrent_select limits)
  | CMD_UPDATE => Some (max_concurrent_update limits)
  | CMD_DELETE => Some (max_concurrent_delete limits)
  | CMD_INSERT => Some (max_concurrent_insert limits)
  | _ => None
  end.

Definition stmt_violation (op : CmdType) (s : QoSStats) : QoSStats :=
  match op with
  | CMD_SELECT => bump_select s
  | CMD_UPDATE => bump_update s
  | CMD_DELETE => bump_delete s
  | CMD_INSERT => bump_insert s
  | _ => s
  end.

(** [qos_track_statement_start(operation)]; [limits] is the value of
    [qos_get_cached_limits()]; the lock is held from the scan to the
    registration, so the function is one transition of the shared state. *)
Definition qos_track_statement_start (qos_enabled : bool) (me : Proc)
    (limits : QoSLimits) (op : CmdType) (sh : SharedState) (loc : BackendLocal)
    : AdmitResult :=
  if negb qos_enabled || statement_tracked loc then Proceed sh loc else
  match stmt_limit limits op with
  | None => Proceed sh loc
  | Some limit_val =>
      let slots := backend_status sh in
      let count := count_peers 0 slots (my_slot me) (stmt_match (my_user me) (my_db me) op) in
      if (limit_val >? 0) && (count >=? limit_val) then
        Refused (mkErr ERRCODE_PROGRAM_LIMIT_EXCEEDED
                   ("qos: maximum concurrent " ++ kind_name op ++ " statements exceeded")
                   (detail_current_max count limit_val)
                   "Wait for other queries to complete")
                (mkShared (bump_rejected (stmt_violation op (stats sh))) slots) loc
      else
        let old := slot_of slots (my_slot me) in
        let s' := mkStatus (my_pid me) (my_user me) (my_db me) op (in_transaction old) in
        Proceed (mkShared (stats sh) (<[my_slot me := s']> slots))
                (mkLocal op true (transaction_tracked loc))
  end.

(** [qos_track_statement_end()] *)
Definition qos_track_statement_end (qos_enabled : bool) (me : Proc)
    (sh : SharedState) (loc : BackendLocal) : SharedState * BackendLocal :=
  if negb qos_enabled || negb (statement_tracked loc) then (sh, loc) else
  let slots := backend_status sh in
  let old := slot_of slots (my_slot me) in
  let slots' :=
    if pid old =? my_pid me
    then <[my_slot me := mkStatus (pid old) (role_oid old) (database_oid old)
                                  CMD_UNKNOWN (in_transaction old)]> slots
    else slots in
  (mkShared (stats sh) slots', mkLocal CMD_UNKNOWN false (transaction_tracked loc)).

(** [qos_track_transaction_start()] (the [MyBackendId] revision). *)
Definition qos_track_transaction_start (qos_enabled : bool) (me : Proc)
    (limits : QoSLimits) (sh : SharedState) (loc : BackendLocal) : AdmitResult :=
  if negb qos_enabled || transaction_tracked loc then Proceed sh loc else
  if negb (max_concurrent_tx limits >? 0) then Proceed sh loc else
  let slots := backend_status sh in
  let count := count_peers 0 slots (my_slot me) (tx_match (my_user me) (my_db me)) in
  if count >=? max_concurrent_tx limits then
    Refused (mkErr ERRCODE_PROGRAM_LIMIT_EXCEEDED
               "qos: maximum concurrent transactions exceeded"
               (detail_current_max count (max_concurrent_tx limits))
               "Wait for other transactions to complete")
            (mkShared (bump_rejected (bump_tx (stats sh))) slots) loc
  else
    let old := slot_of slots (my_slot me) in
    let s' := mkStatus (my_pid me) (my_user me) (my_db me) (cmd_type old) true in
    Proceed (mkShared (stats sh) (<[my_slot me := s']> slots))
            (mkLocal (current_statement_type loc) (statement_tracked loc) true).

(** [qos_track_transaction_end()] *)
Definition qos_track_transaction_end (qos_enabled : bool) (me : Proc)
    (sh : SharedState) (loc : BackendLocal) : SharedState * BackendLocal :=
  if negb qos_enabled || negb (transaction_tracked loc) then (sh, loc) else
  let slots := backend_status sh in
  let old := slot_of slots (my_slot me) in
  let slots' :=
    if pid old =? my_pid me
    then <[my_slot me := mkStatus (pid old) (role_oid old) (database_oid old)
                                  (cmd_type old) false]> slots
    else slots in
  (mkShared (stats sh) slots',
   mkLocal (current_statement_type loc) (statement_tracked loc) false).

End Admission.

(* ===================================================================== *)
(** ** The cluster: every backend running the admission functions *)
(* ===================================================================== *)

Module Cluster.
Import Limits Err Admission.

(** The shared region and the statics of every backend. *)
Record World := mkWorld {
  shm : SharedState;
  locals : nat -> BackendLocal
}.

(** One call of an admission function by backend [b] with the current
    value [en] of [qos.enabled].  The transaction-abort callback
    [qos_xact_callback] is the sequence [OStmtEnd; OTxEnd]. *)
Inductive Op :=
| OStmtStart (b : nat) (en : bool) (op : CmdType)
| OStmtEnd (b : nat) (en : bool)
| OTxStart (b : nat) (en : bool)
| OTxEnd (b : nat) (en : bool).

Definition op_backend (o : Op) : nat :=
  match o with
  | OStmtStart b _ _ | OStmtEnd b _ | OTxStart b _ | OTxEnd b _ => b
  end.

Definition upd_local (f : nat -> BackendLocal) (b : nat) (l : BackendLocal)
    : nat -> BackendLocal :=
  fun x => if (x =? b)%nat then l else f x.

Definition world_init (n : nat) : World :=
  mkWorld (mkShared stats_zero (repeat empty_slot n)) (fun _ => local_init).

(** The number of occupied slots satisfying [p] (the quantity the
    admission bound is about). *)
Definition matchb (p : BackendStatus -> bool) (s : BackendStatus) : Z :=
  if pid s =? 0 then 0 else if p s then 1 else 0.

Fixpoint count_all (slots : list BackendStatus) (p : BackendStatus -> bool) : Z :=
  match slots with
  | [] => 0
  | s :: rest => matchb p s + count_all rest p
  end.

Definition registered_stmt (w : World) (role db : Z) (k : CmdType) : Z :=
  count_all (backend_status (shm w)) (stmt_match role db k).

Definition registered_tx (w : World) (role db : Z) : Z :=
  count_all (backend_status (shm w)) (tx_match role db).

Section Run.

(** Backend [b] occupies slot [b]; its process id, user and database. *)
Variable pidof : nat -> Z.
Variable uid : nat -> Z.
Variable dbid : nat -> Z.
(** The effective limits every backend of a (role, database) reads. *)
Variable lim : Z -> Z -> QoSLimits.

Definition proc_of (b : nat) : Proc := mkProc b (pidof b) (uid b) (dbid b).

Definition after_admit (w : World) (b : nat) (r : AdmitResult) : World :=
  match r with
  | Proceed sh l => mkWorld sh (upd_local (locals w) b l)
  | Refused _ sh l => mkWorld sh (upd_local (locals w) b l)
  end.

Definition run_op (o : Op) (w : World) : World :=
  match o with
  | OStmtStart b en op =>
      after_admit w b (qos_track_statement_start en (proc_of b) (lim (uid b) (dbid b)) op
                         (shm w) (locals w b))
  | OTxStart b en =>
      after_admit w b (qos_track_transaction_start en (proc_of b) (lim (uid b) (dbid b))
                         (shm w) (locals w b))
  | OStmtEnd b en =>
      let '(sh, l) := qos_track_statement_end en (proc_of b) (shm w) (locals w b) in
      mkWorld sh (upd_local (locals w) b l)
  | OTxEnd b en =>
      let '(sh, l) := qos_track_transaction_end en (proc_of b) (shm w) (locals w b) in
      mkWorld sh (upd_local (locals w) b l)
  end.

Definition run_ops (os : list Op) (w : World) : World := fold_left (fun w o => run_op o w) os w.

(** The states reachable from startup with [n] backend slots, by any
    interleaving of admission calls of backends [0 .. n-1]. *)
Inductive reachable (n : nat) : World -> Prop :=
| reach_init : reachable n (world_init n)
| reach_step w o : reachable n w -> (op_backend o < n)%nat -> reachable n (run_op o w).

(** Slot [b] is free or holds backend [b]'s pid, user and database. *)
Definition slots_ok (n : nat) (l : list BackendStatus) : Prop :=
  length l = n /\
  forall b s, l !! b = Some s ->
    s = empty_slot \/ (pid s = pidof b /\ role_oid s = uid b /\ database_oid s = dbid b).

Definition bound_ok (l : list BackendStatus) : Prop :=
  (forall r d k L, stmt_limit (lim r d) k = Some L -> L > 0 ->
     count_all l (stmt_match r d k) <= L) /\
  (forall r d, max_concurrent_tx (lim r d) >= 0 ->
     count_all l (tx_match r d) <= max_concurrent_tx (lim r d)).

Definition owned (b : nat) (s : BackendStatus) : Prop :=
  s = empty_slot \/ (pid s = pidof b /\ role_oid s = uid b /\ database_oid s = dbid b).

End Run.

End Cluster.

(* ===================================================================== *)
(** ** Parse nodes and plan nodes used by the hooks *)
(* ===================================================================== *)

Module Nodes.

(** [VariableSetKind] of parsenodes.h. *)
Inductive VariableSetKind :=
| VAR_SET_VALUE | VAR_SET_DEFAULT | VAR_SET_CURRENT | VAR_SET_MULTI
| VAR_RESET | VAR_RESET_ALL.

Definition kind_eqb (a b : VariableSetKind) : bool :=
  match a, b with
  | VAR_SET_VALUE, VAR_SET_VALUE | VAR_SET_DEFAULT, VAR_SET_DEFAULT
  | VAR_SET_CURRENT, VAR_SET_CURRENT | VAR_SET_MULTI, VAR_SET_MULTI
  | VAR_RESET, VAR_RESET | VAR_RESET_ALL, VAR_RESET_ALL => true
  | _, _ => false
  end.

(** An element of [VariableSetStmt.args]: an [A_Const] holding an
    [Integer] or a [String], or anything else. *)
Inductive SetArg :=
| ArgInteger (i : Z)
| ArgString (s : string)
| ArgOther.

(** [VariableSetStmt]; [name] is NULL for [RESET ALL]. *)
Record VariableSetStmt := mkSetStmt {
  kind : VariableSetKind;
  name : option string;
  args : list SetArg
}.


(** The plan nodes the planner hook distinguishes ([IsA(plan, Gather)],
    [IsA(plan, GatherMerge)]). *)
Inductive PlanTag := Gather | GatherMerge | OtherPlan.

(** A [Plan] with its [lefttree] and [righttree]; [PNull] is a NULL
    pointer.  [num_workers] is only meaningful for the two gather tags. *)
Inductive Plan :=
| PNull
| PNode (tag : PlanTag) (num_workers : Z) (lefttree righttree : Plan).

(** The fields of [PlannedStmt] the hook reads. *)
Record PlannedStmt := mkPlanned {
  parallelModeNeeded : bool;
  planTree : Plan;
  subplans : list Plan
}.

End Nodes.

(* ===================================================================== *)
(** ** hooks_resource.c: work_mem enforcement and the planner clamp *)
(* ===================================================================== *)

Module Resource.
Import Limits Err Parse Nodes.

(** Signed 64-bit and 32-bit wrap-around (PostgreSQL is built with
    [-fwrapv]). *)
Definition wrap64 (z : Z) : Z := (z + 2 ^ 63) mod 2 ^ 64 - 2 ^ 63.
Definition wrap32 (z : Z) : Z := (z + 2 ^ 31) mod 2 ^ 32 - 2 ^ 31.

(** [qos_parse_memory_unit] (qos.c): [strtol], then a suffix compared
    with [strcasecmp] against the whole rest of the string; an unknown
    suffix is ignored.  No conversion leaves [value = 0], [endptr = str]. *)
Definition qos_parse_memory_unit (str : string) : Z :=
  let '(value, endptr) :=
    match strtoll str with
    | None => (0, str)
    | Some (v, e, _) => (v, e)
    end in
  if String.eqb endptr EmptyString then value
  else if strcaseeq endptr "kb" || strcaseeq endptr "k" then wrap64 (value * 1024)
  else if strcaseeq endptr "mb" || strcaseeq endptr "m" then wrap64 (value * (1024 * 1024))
  else if strcaseeq endptr "gb" || strcaseeq endptr "g"
  then wrap64 (value * (1024 * 1024 * 1024))
  else value.

(** The GUC [work_mem] (in kB), the statics [work_mem_enforced] and
    [work_mem_last_epoch] of hooks_resource.c, and the shared counter
    [stats.work_mem_violations]. *)
Record WmState := mkWm {
  guc_work_mem : Z;
  work_mem_enforced : bool;
  work_mem_last_epoch : Z;
  work_mem_violations : Z
}.

Definition wm_init (guc : Z) : WmState := mkWm guc false (-1) 0.

(** The end of [qos_enforce_work_mem_limit]: return, or [ereport(ERROR)]. *)
Inductive WmResult :=
| WmDone (st : WmState)
| WmError (e : PgError) (st : WmState).

(** [stats.work_mem_violations++] under the lock, when the shared state
    exists ([shm_epoch <> None]). *)
Definition bump_wm_violation (shm_epoch : option Z) (st : WmState) : WmState :=
  match shm_epoch with
  | Some _ => mkWm (guc_work_mem st) (work_mem_enforced st) (work_mem_last_epoch st)
                   (work_mem_violations st + 1)
  | None => st
  end.

Definition work_mem_error (requested limit : Z) : PgError :=
  mkErr ERRCODE_INSUFFICIENT_RESOURCES "qos: work_mem limit exceeded"
    ("Requested " ++ string_of_Z (Z.quot requested 1024) ++ " KB, maximum allowed is "
       ++ string_of_Z (Z.quot limit 1024) ++ " KB")
    "Contact administrator to increase qos.work_mem_limit".

Definition is_set_work_mem (s : VariableSetStmt) : bool :=
  match name s with
  | Some n => String.eqb n "work_mem" && kind_eqb (kind s) VAR_SET_VALUE
              && negb (match args s with [] => true | _ => false end)
  | None => false
  end.

(** [qos_enforce_work_mem_limit(stmt)]; [stmt = None] is the NULL call
    made on every planned or utility statement; [limits] is
    [qos_get_cached_limits()]. *)
Definition qos_enforce_work_mem_limit (qos_enabled : bool) (limits : QoSLimits)
    (shm_epoch : option Z) (stmt : option VariableSetStmt) (st : WmState) : WmResult :=
  if negb qos_enabled then WmDone st else
  if work_mem_limit limits <? 0 then WmDone st else
  match stmt with
  | Some s =>
      if negb (is_set_work_mem s) then WmDone st else
      let new_work_mem_bytes :=
        match args s with
        | ArgInteger i :: _ => Some (i * 1024)
        | ArgString v :: _ => Some (qos_parse_memory_unit v)
        | _ => None
        end in
      match new_work_mem_bytes with
      | None => WmDone st
      | Some b =>
          if b >? work_mem_limit limits
          then WmError (work_mem_error b (work_mem_limit limits))
                       (bump_wm_violation shm_epoch st)
          else WmDone st
      end
  | None =>
      let st1 :=
        match shm_epoch with
        | Some e =>
            if e =? work_mem_last_epoch st then st
            else mkWm (guc_work_mem st) false e (work_mem_violations st)
        | None => st
        end in
      if work_mem_enforced st1 then WmDone st1 else
      let st2 := mkWm (guc_work_mem st1) true (work_mem_last_epoch st1)
                      (work_mem_violations st1) in
      if guc_work_mem st2 * 1024 >? work_mem_limit limits
      then WmDone (bump_wm_violation shm_epoch
                     (mkWm (wrap32 (Z.quot (work_mem_limit limits) 1024)) true
                           (work_mem_last_epoch st2) (work_mem_violations st2)))
      else WmDone st2
  end.

(** [qos_adjust_parallel_workers(plan, max_workers)] *)
Fixpoint qos_adjust_parallel_workers (plan : Plan) (max_workers : Z) : Plan :=
  match plan with
  | PNull => PNull
  | PNode tag nw l r =>
      let nw' :=
        match tag with
        | Gather | GatherMerge => if nw >? max_workers then max_workers else nw
        | OtherPlan => nw
        end in
      PNode tag nw' (qos_adjust_parallel_workers l max_workers)
                    (qos_adjust_parallel_workers r max_workers)
  end.

(** [qos_planner_hook] after the planner has produced [result];
    [limits] is [qos_get_cached_limits()]. *)
Definition qos_planner_hook (qos_enabled : bool) (limits : QoSLimits)
    (result : PlannedStmt) : PlannedStmt :=
  if negb qos_enabled then result else
  if negb (cpu_core_limit limits >? 0) then result else
  let new_max_workers :=
    if cpu_core_limit limits >? 1 then cpu_core_limit limits - 1 else 0 in
  let tree :=
    if parallelModeNeeded result && negb (match planTree result with PNull => true | _ => false end)
    then qos_adjust_parallel_workers (planTree result) new_max_workers
    else planTree result in
  mkPlanned (parallelModeNeeded result) tree
    (map (fun sp => match sp with
                    | PNull => PNull
                    | _ => qos_adjust_parallel_workers sp new_max_workers
                    end) (subplans result)).

End Resource.

(* ===================================================================== *)
(** ** hooks_cache.c and hooks_transaction.c: the settings epoch *)
(* ===================================================================== *)

Module Epoch.
Import Limits Err Parse Nodes Resource.

(** Accesses of the shared region by the epoch code. *)
Inductive ShmEvent :=
| LWLockAcquire
| EpochStore (v : Z)
| LWLockRelease.

(** What the utility hook works on: [qos_shared_state->settings_epoch]
    ([None] when [qos_shared_state] is NULL), the trace of shared
    accesses, the work_mem state, and the static
    [suppress_concurrency_tracking]. *)
Record UtilState := mkUtil {
  settings_epoch : option Z;
  shm_trace : list ShmEvent;
  wm : WmState;
  suppress_concurrency_tracking : bool
}.






Definition with_wm (st : UtilState) (w : WmState) : UtilState :=
  mkUtil (settings_epoch st) (shm_trace st) w (suppress_concurrency_tracking st).




End Epoch.

(* ===================================================================== *)
(** ** The specification's vocabulary *)
(* ===================================================================== *)

Module SpecDefs.
Import Parse Admission Nodes.

(** The violation counter of each statement kind. *)
Definition kind_counter (op : CmdType) : QoSStats -> Z :=
  match op with
  | CMD_SELECT => concurrent_select_violations
  | CMD_UPDATE => concurrent_update_violations
  | CMD_DELETE => concurrent_delete_violations
  | _ => concurrent_insert_violations
  end.

(** Every Gather and Gather Merge node reachable through [lefttree] and
    [righttree] has at most [W] workers. *)
Fixpoint gathers_within (W : Z) (p : Plan) : Prop :=
  match p with
  | PNull => True
  | PNode tag nw l r =>
      (tag = Gather \/ tag = GatherMerge -> nw <= W) /\ gathers_within W l /\ gathers_within W r
  end.

(** The memory suffixes of the specification, lower-cased, with their
    multipliers ([""] = no suffix). *)
Definition spec_suffixes : list (string * Z) :=
  [(""%string, 1); ("k"%string, 1024); ("kb"%string, 1024);
   ("m"%string, 1024 * 1024); ("mb"%string, 1024 * 1024);
   ("g"%string, 1024 * 1024 * 1024); ("gb"%string, 1024 * 1024 * 1024)].

End SpecDefs.

(* ===================================================================== *)
(** ** hooks_cache.c: the invalidation callbacks *)
(* ===================================================================== *)

Module CacheCallbacks.
Import Limits.

(** The [cacheid] argument of the syscache callback: the two caches it
    is registered for, or any other syscache identifier. *)
Inductive SysCacheId :=
| DATABASEOID
| AUTHOID
| OtherSysCache (id : Z).

(** [limits_cached = false;] *)
Definition clear_limits_cached (c : SessionCache) : SessionCache :=
  mkCache (cached_limits c) (cached_user_id c) (cached_db_id c) false (last_seen_epoch c).

(** [qos_invalidate_cache_callback(arg, cacheid, hashvalue)] *)
Definition qos_invalidate_cache_callback (cacheid : SysCacheId) (c : SessionCache)
    : SessionCache :=
  match cacheid with
  | DATABASEOID | AUTHOID => clear_limits_cached c
  | OtherSysCache _ => c
  end.

(** [qos_relcache_callback(arg, relid)]: every relcache event. *)
Definition qos_relcache_callback (relid : Z) (c : SessionCache) : SessionCache :=
  clear_limits_cached c.

(** [qos_invalidate_cache()] *)
Definition qos_invalidate_cache (c : SessionCache) : SessionCache :=
  clear_limits_cached c.

End CacheCallbacks.

(* ===================================================================== *)
(** ** hooks_transaction.c: the callers of the tracking functions *)
(* ===================================================================== *)

Module Hooks.
Import Limits Err Admission Cluster.

(** [XactEvent] of xact.h. *)
Inductive XactEvent :=
| XACT_EVENT_COMMIT
| XACT_EVENT_PARALLEL_COMMIT
| XACT_EVENT_ABORT
| XACT_EVENT_PARALLEL_ABORT
| XACT_EVENT_PREPARE
| XACT_EVENT_PRE_COMMIT
| XACT_EVENT_PARALLEL_PRE_COMMIT
| XACT_EVENT_PRE_PREPARE.

(** [qos_xact_callback(event, arg)] *)
Definition qos_xact_callback (event : XactEvent) (qos_enabled : bool) (me : Proc)
    (sh : SharedState) (loc : BackendLocal) : SharedState * BackendLocal :=
  match event with
  | XACT_EVENT_ABORT | XACT_EVENT_PARALLEL_ABORT =>
      let '(sh1, loc1) := qos_track_statement_end qos_enabled me sh loc in
      qos_track_transaction_end qos_enabled me sh1 loc1
  | _ => (sh, loc)
  end.

(** The tracking calls of [qos_ExecutorEnd], made after the executor
    has finished. *)
Definition qos_ExecutorEnd_tracking (qos_enabled : bool) (me : Proc)
    (sh : SharedState) (loc : BackendLocal) : SharedState * BackendLocal :=
  let '(sh1, loc1) := qos_track_statement_end qos_enabled me sh loc in
  qos_track_transaction_end qos_enabled me sh1 loc1.

(** The tracking calls common to [qos_planner] and [qos_ExecutorStart]:
    the transaction, then the statement for the four tracked kinds; an
    [ereport(ERROR)] of the first call ends the hook.  [limits] is what
    [qos_get_cached_limits()] returns to both calls. *)
Definition track_transaction_and_statement (qos_enabled : bool) (me : Proc)
    (limits : QoSLimits) (op : CmdType) (sh : SharedState) (loc : BackendLocal)
    : AdmitResult :=
  match qos_track_transaction_start qos_enabled me limits sh loc with
  | Refused e sh1 loc1 => Refused e sh1 loc1
  | Proceed sh1 loc1 =>
      match op with
      | CMD_SELECT | CMD_UPDATE | CMD_DELETE | CMD_INSERT =>
          qos_track_statement_start qos_enabled me limits op sh1 loc1
      | _ => Proceed sh1 loc1
      end
  end.

(** The tracking part of [qos_ExecutorStart] ([qos_enforce_cpu_limit],
    called before it, touches neither the status array nor the
    statistics). *)
Definition qos_ExecutorStart_tracking (qos_enabled : bool) (me : Proc)
    (limits : QoSLimits) (op : CmdType) (sh : SharedState) (loc : BackendLocal)
    : AdmitResult :=
  track_transaction_and_statement qos_enabled me limits op sh loc.

(** The tracking part of [qos_planner]: skipped while
    [suppress_concurrency_tracking] is set (EXPLAIN without ANALYZE,
    PREPARE). *)
Definition qos_planner_tracking (qos_enabled suppress_concurrency_tracking : bool)
    (me : Proc) (limits : QoSLimits) (op : CmdType) (sh : SharedState)
    (loc : BackendLocal) : AdmitResult :=
  if qos_enabled && negb suppress_concurrency_tracking
  then track_transaction_and_statement qos_enabled me limits op sh loc
  else Proceed sh loc.

(** [qos_reset_stats()] with the shared state attached: the statistics
    are zeroed, the status array is left alone. *)
Definition qos_reset_stats (sh : SharedState) : SharedState :=
  mkShared stats_zero (backend_status sh).

Section World.
Variable pidof : nat -> Z.
Variable uid : nat -> Z.
Variable dbid : nat -> Z.
Variable lim : Z -> Z -> QoSLimits.

(** Backend [b] runs [qos_xact_callback(event)]. *)
Definition xact_callback_world (event : XactEvent) (b : nat) (en : bool) (w : World) : World :=
  let '(sh, l) := qos_xact_callback event en (proc_of pidof uid dbid b) (shm w) (locals w b) in
  mkWorld sh (upd_local (locals w) b l).

(** The states reachable from startup by any interleaving of admission
    calls and calls of [qos_reset_stats]. *)
Inductive reachable_rs (n : nat) : World -> Prop :=
| rs_init : reachable_rs n (world_init n)
| rs_op w o : reachable_rs n w -> (op_backend o < n)%nat ->
    reachable_rs n (run_op pidof uid dbid lim o w)
| rs_reset w : reachable_rs n w -> reachable_rs n (mkWorld (qos_reset_stats (shm w)) (locals w)).

End World.

End Hooks.

(* ===================================================================== *)
(** ** hooks_resource.c: choice of CPU cores and the affinity table *)
(* ===================================================================== *)

Module Affinity.
Import Limits Resource.

Definition MAX_CORES_PER_ENTRY : nat := 64.
Definition MAX_AFFINITY_ENTRIES : nat := 128.

(** [QoSAffinityEntry]; [assigned_cores] is the array of
    [MAX_CORES_PER_ENTRY] ints. *)
Record AffinityEntry := mkAff {
  database_oid : Z;
  role_oid : Z;
  num_cores : Z;
  assigned_cores : list Z
}.

Definition empty_entry : AffinityEntry :=
  mkAff InvalidOid InvalidOid 0 (repeat 0 MAX_CORES_PER_ENTRY).

(** The fields of [QoSSharedState] used here: [next_cpu_core] and
    [affinity_entries]. *)
Record AffState := mkAffState {
  next_cpu_core : Z;
  affinity_entries : list AffinityEntry
}.

(** As [qos_shmem_startup] leaves them. *)
Definition aff_init : AffState :=
  mkAffState 0 (repeat empty_entry MAX_AFFINITY_ENTRIES).

(** [cpu_cycles[sorted_indices[k]]] *)
Definition cycles_at (cpu_cycles sorted_indices : list Z) (k : nat) : Z :=
  nth (Z.to_nat (nth k sorted_indices 0)) cpu_cycles 0.

(** The inner loop [for (j = i + 1; j < total_cores; j++)] choosing
    [min_idx]; [count] is the number of iterations left. *)
Fixpoint min_scan (cpu_cycles sorted_indices : list Z) (min_idx j count : nat) : nat :=
  match count with
  | O => min_idx
  | S count' =>
      let min_idx' :=
        if cycles_at cpu_cycles sorted_indices j <? 0 then min_idx
        else if (cycles_at cpu_cycles sorted_indices min_idx <? 0)
                || (cycles_at cpu_cycles sorted_indices j
                      <? cycles_at cpu_cycles sorted_indices min_idx)
        then j else min_idx in
      min_scan cpu_cycles sorted_indices min_idx' (S j) count'
  end.

(** The outer loop [for (i = 0; i < requested_cores; i++)] with the swap
    of [sorted_indices[i]] and [sorted_indices[min_idx]]. *)
Fixpoint selection_pass (cpu_cycles : list Z) (total : nat) (i count : nat)
    (sorted_indices : list Z) : list Z :=
  match count with
  | O => sorted_indices
  | S count' =>
      let min_idx := min_scan cpu_cycles sorted_indices i (S i) (total - S i) in
      let sorted_indices' :=
        if (min_idx =? i)%nat then sorted_indices
        else
          let temp_idx := nth i sorted_indices 0 in
          <[min_idx := temp_idx]> (<[i := nth min_idx sorted_indices 0]> sorted_indices) in
      selection_pass cpu_cycles total (S i) count' sorted_indices'
  end.

(** [qos_select_least_busy_cores(selected_cores, requested_cores,
    total_cores)]: the number of cores chosen, the values written to
    [selected_cores], and [next_cpu_core] afterwards ([None] when
    [qos_shared_state] is NULL).  [measure] is [qos_measure_cpu_cycles]
    ([-1] when perf is unavailable). *)
Definition qos_select_least_busy_cores (requested_cores total_cores : Z)
    (measure : Z -> Z) (next_cpu_core : option Z) : Z * list Z * option Z :=
  if (requested_cores <=? 0) || (total_cores <=? 0) then (0, [], next_cpu_core) else
  let requested_cores := if requested_cores >? total_cores then total_cores else requested_cores in
  let sorted_indices := map Z.of_nat (seq 0 (Z.to_nat total_cores)) in
  let cpu_cycles := map measure sorted_indices in
  let valid_count := length (filter (fun c => c >=? 0) cpu_cycles) in
  if (valid_count =? 0)%nat then
    (* round-robin *)
    let '(start_core, next') :=
      match next_cpu_core with
      | Some s => (s, Some (Z.rem (wrap32 (s + requested_cores)) total_cores))
      | None => (0, None)
      end in
    (requested_cores,
     map (fun i => Z.rem (wrap32 (start_core + Z.of_nat i)) total_cores)
         (seq 0 (Z.to_nat requested_cores)),
     next')
  else
    (requested_cores,
     take (Z.to_nat requested_cores)
       (selection_pass cpu_cycles (Z.to_nat total_cores) 0 (Z.to_nat requested_cores)
          sorted_indices),
     next_cpu_core).

Definition key_is (db role : Z) (e : AffinityEntry) : bool :=
  (database_oid e =? db) && (role_oid e =? role).

(** [for (j = 0; j < count; j++) dst[j] = src[j];] *)
Definition copy_cores (count : nat) (src dst : list Z) : list Z :=
  take count src ++ drop count dst.

(** The first loop of [qos_get_or_assign_cores]: the entry of
    [(db, role)], or the first slot whose [database_oid] is
    [InvalidOid] ([-1] if none). *)
Fixpoint scan_entries (db role : Z) (i : Z) (entries : list AffinityEntry)
    (empty_slot : Z) : option AffinityEntry * Z :=
  match entries with
  | [] => (None, empty_slot)
  | e :: rest =>
      if key_is db role e then (Some e, empty_slot)
      else scan_entries db role (i + 1) rest
             (if (empty_slot =? -1) && (database_oid e =? InvalidOid) then i else empty_slot)
  end.

(** [entries[k].database_oid = db; ...; assigned_cores[j] = ...] *)
Definition write_entry (db role ncores : Z) (assigned : list Z) (old : AffinityEntry)
    : AffinityEntry :=
  mkAff db role ncores
    (copy_cores (Nat.min (Z.to_nat ncores) MAX_CORES_PER_ENTRY) assigned (assigned_cores old)).

(** The second critical section of [qos_get_or_assign_cores]: the
    re-check, then the store into [empty_slot] (as found by the first
    section) or, when it is [-1], the eviction of the first entry.
    Returns the result, the caller's [assigned_cores] and the entries. *)
Definition qos_store_assignment (db role empty_slot requested_cores ncores : Z)
    (assigned : list Z) (entries : list AffinityEntry)
    : Z * list Z * list AffinityEntry :=
  match List.find (key_is db role) entries with
  | Some e =>
      (num_cores e,
       copy_cores (Z.to_nat (Z.min (num_cores e) requested_cores)) (assigned_cores e) assigned,
       entries)
  | None =>
      if negb (empty_slot =? -1) then
        let k := Z.to_nat empty_slot in
        (ncores, assigned, <[k := write_entry db role ncores assigned (nth k entries empty_entry)]> entries)
      else
        (ncores, assigned,
         take (MAX_AFFINITY_ENTRIES - 1) (drop 1 entries)
           ++ [write_entry db role ncores assigned
                 (nth (MAX_AFFINITY_ENTRIES - 1) entries empty_entry)])
  end.

(** [qos_get_or_assign_cores(database_oid, role_oid, requested_cores,
    total_cores, assigned_cores)] run without interference: the result,
    the caller's [assigned_cores], and the shared state afterwards
    ([None] when [qos_shared_state] is NULL). *)
Definition qos_get_or_assign_cores (db role requested_cores total_cores : Z)
    (measure : Z -> Z) (sh : option AffState) (assigned : list Z)
    : Z * list Z * option AffState :=
  match sh with
  | None => (0, assigned, None)
  | Some st =>
      if requested_cores <=? 0 then (0, assigned, sh) else
      match scan_entries db role 0 (affinity_entries st) (-1) with
      | (Some e, _) =>
          (num_cores e,
           copy_cores (Z.to_nat (Z.min (num_cores e) requested_cores)) (assigned_cores e) assigned,
           sh)
      | (None, empty_slot) =>
          let '(ncores, selected, next') :=
            qos_select_least_busy_cores requested_cores total_cores measure
              (Some (next_cpu_core st)) in
          let assigned1 := copy_cores (length selected) selected assigned in
          let st1 := mkAffState (default (next_cpu_core st) next') (affinity_entries st) in
          if ncores <=? 0 then (0, assigned1, Some st1) else
          let '(r, assigned2, entries') :=
            qos_store_assignment db role empty_slot requested_cores ncores assigned1
              (affinity_entries st1) in
          (r, assigned2, Some (mkAffState (next_cpu_core st1) entries'))
      end
  end.

(** The entries reachable by any interleaving of the two critical
    sections of [qos_get_or_assign_cores] run by any backends: only the
    second one writes the table, with an [empty_slot] found by an earlier
    first section (possibly stale) and any selection. *)
Inductive aff_reachable : list AffinityEntry -> Prop :=
| aff_start : aff_reachable (affinity_entries aff_init)
| aff_store entries db role empty_slot requested_cores ncores assigned :
    aff_reachable entries ->
    empty_slot = -1 \/ (0 <= empty_slot < Z.of_nat MAX_AFFINITY_ENTRIES) ->
    aff_reachable
      (snd (qos_store_assignment db role empty_slot requested_cores ncores assigned entries)).

End Affinity.

(* ===================================================================== *)
(** ** Vocabulary of the further properties *)
(* ===================================================================== *)

Module ExtraDefs.
Import Limits Parse Admission.

(** The sum of the five concurrency violation counters. *)
Definition concurrency_violations (s : QoSStats) : Z :=
  concurrent_tx_violations s + concurrent_select_violations s
  + concurrent_update_violations s + concurrent_delete_violations s
  + concurrent_insert_violations s.

(** An element of a [setconfig] array that is not a [qos.*] setting. *)
Definition is_non_qos_entry (e : option string) : bool :=
  match e with
  | Some s => negb (strncaseeq_prefix s "qos.")
  | None => false
  end.

(** A non-empty string of decimal digits and its value. *)
Fixpoint all_digits (s : string) : bool :=
  match s with
  | EmptyString => true
  | String c s' => isdigit c && all_digits s'
  end.

Definition digit_string (s : string) : Prop :=
  s <> EmptyString /\ all_digits s = true.

Fixpoint decimal_value_from (acc : Z) (s : string) : Z :=
  match s with
  | EmptyString => acc
  | String c s' => decimal_value_from (10 * acc + (Z.of_nat (nat_of_ascii c) - 48)) s'
  end.

Definition decimal_value (s : string) : Z := decimal_value_from 0 s.

(** The ranges of the C types of the [QoSLimits] fields, [-1] (unset)
    included; the error level is [-1], warning or error. *)
Definition limits_in_range (l : QoSLimits) : Prop :=
  -1 <= work_mem_limit l <= INT64_MAX /\
  -1 <= cpu_core_limit l <= INT_MAX /\
  -1 <= max_concurrent_tx l <= INT_MAX /\
  -1 <= max_concurrent_select l <= INT_MAX /\
  -1 <= max_concurrent_update l <= INT_MAX /\
  -1 <= max_concurrent_delete l <= INT_MAX /\
  -1 <= max_concurrent_insert l <= INT_MAX /\
  -1 <= work_mem_error_level l <= 1.

(** A slot and the statics of the backend owning it agree: a registered
    statement kind or transaction is one the backend is tracking. *)
Definition slot_flags_ok (s : BackendStatus) (l : BackendLocal) : Prop :=
  (cmd_type s <> CMD_UNKNOWN -> statement_tracked l = true) /\
  (in_transaction s = true -> transaction_tracked l = true).

Definition flags_ok (slots : list BackendStatus) (locs : nat -> BackendLocal) : Prop :=
  forall b s, slots !! b = Some s -> slot_flags_ok s (locs b).

(** No two slots of the affinity table hold the same occupied key
    ([database_oid <> InvalidOid]). *)
Definition affinity_keys_unique (entries : list Affinity.AffinityEntry) : Prop :=
  forall i j e1 e2, entries !! i = Some e1 -> entries !! j = Some e2 ->
    Affinity.database_oid e1 <> InvalidOid ->
    Affinity.database_oid e1 = Affinity.database_oid e2 ->
    Affinity.role_oid e1 = Affinity.role_oid e2 -> i = j.

End ExtraDefs.

(* ===================================================================== *)
(** * Properties *)
(* ===================================================================== *)

Module Tests.
Import Limits Err Parse Catalog Admission Cluster.

Example string_of_Z_ex : string_of_Z 65536 = "65536"%string /\ string_of_Z (-1) = "-1"%string
  /\ string_of_Z 0 = "0"%string.
Proof. repeat split; reflexivity. Qed.

Example parse_memory_ex :
  qos_parse_memory_value "64MB" = Some 67108864 /\
  qos_parse_memory_value " 1 gb" = Some 1073741824 /\
  qos_parse_memory_value "-1" = Some (-1) /\
  qos_parse_memory_value "-1kB" = None /\
  qos_parse_memory_value "12" = Some 12 /\
  qos_parse_memory_value "9007199254740992GB" = None /\
  qos_parse_memory_value "5 TB" = None.
Proof. repeat split; vm_compute; reflexivity. Qed.

Example trim_ex : qos_trim_whitespace "  64MB  " = "64MB"%string.
Proof. reflexivity. Qed.

Example apply_ex :
  qos_apply_qos_param_value default_limits "qos.max_concurrent_select" (Some " 2 "%string) true
    = Ret (true, set_max_concurrent_select default_limits 2) /\
  qos_apply_qos_param_value default_limits "qos.cpu_core_limit" (Some "-3"%string) false
    = Ret (false, default_limits) /\
  qos_apply_qos_param_value default_limits "work_mem" (Some "x"%string) true
    = Ret (false, default_limits).
Proof. repeat split; vm_compute; reflexivity. Qed.

Example scan_ex :
  let cat := [mkRow 0 10 (Some [Some "qos.max_concurrent_tx=3"%string;
                                Some "search_path=public"%string])] in
  let '(l, tr, cat', _) := qos_get_role_limits 10 1 cat clean_init in
  max_concurrent_tx l = 3 /\ cat' = cat /\
  tr = [TableOpen RowExclusiveLock; BeginScan; GetNext; EndScan; TableClose RowExclusiveLock].
Proof. vm_compute. repeat split; reflexivity. Qed.

End Tests.

(** ** Admission: counting over the backend-status array *)

Module AdmissionFacts.
Import Limits Err Admission Cluster.

Lemma cmd_eqb_eq a b : cmd_eqb a b = true <-> a = b.
Proof. destruct a, b; simpl; split; congruence. Qed.

Lemma matchb_range p s : 0 <= matchb p s <= 1.
Proof. unfold matchb. destruct (pid s =? 0), (p s); lia. Qed.

Lemma count_peers_past l : forall i me p, (me < i)%nat -> count_peers i l me p = count_all l p.
Proof.
  induction l as [|x l IH]; intros i me p Hlt; simpl; [reflexivity|].
  rewrite (IH (S i) me p) by lia.
  destruct (Nat.eqb_spec i me); [lia|]. reflexivity.
Qed.

Lemma count_insert l : forall i me s p, (i <= me)%nat -> (me - i < length l)%nat ->
  count_all (<[(me - i)%nat := s]> l) p = count_peers i l me p + matchb p s.
Proof.
  induction l as [|x l IH]; intros i me s p Hle Hlt; simpl in *; [lia|].
  destruct (me - i)%nat as [|k] eqn:E.
  - assert (me = i) by lia. subst me. simpl.
    rewrite (count_peers_past l (S i) i p) by lia. rewrite Nat.eqb_refl.
    destruct (pid x =? 0); lia.
  - simpl. assert (k = (me - S i)%nat) by lia. subst k.
    rewrite (IH (S i) me s p) by lia.
    destruct (Nat.eqb_spec i me); [lia|]. unfold matchb. lia.
Qed.

Lemma count_insert0 l b s p : (b < length l)%nat ->
  count_all (<[b := s]> l) p = count_peers 0 l b p + matchb p s.
Proof.
  intros H. pose proof (count_insert l 0 b s p) as E. rewrite Nat.sub_0_r in E.
  apply E; lia.
Qed.

Lemma slot_of_lookup l b : (b < length l)%nat -> l !! b = Some (slot_of l b).
Proof.
  intros H. unfold slot_of. destruct (l !! b) eqn:E; [reflexivity|].
  apply lookup_ge_None in E. lia.
Qed.

Lemma count_split l b p : (b < length l)%nat ->
  count_all l p = count_peers 0 l b p + matchb p (slot_of l b).
Proof.
  intros H. rewrite <- count_insert0 by exact H.
  rewrite list_insert_id; [reflexivity|]. apply slot_of_lookup; exact H.
Qed.

(** Replacing slot [b] by one that matches no more than the old one
    does not raise the count. *)
Lemma count_replace_le l b s' p : (b < length l)%nat ->
  matchb p s' <= matchb p (slot_of l b) ->
  count_all (<[b := s']> l) p <= count_all l p.
Proof.
  intros H Hm. rewrite count_insert0 by exact H. rewrite (count_split l b p H). lia.
Qed.

(** Registering in slot [b] after a scan that counted fewer than [L]
    peers leaves at most [L] matching slots. *)
Lemma count_replace_reg l b s' p L : (b < length l)%nat ->
  count_peers 0 l b p < L -> count_all (<[b := s']> l) p <= L.
Proof.
  intros H Hc. rewrite count_insert0 by exact H.
  pose proof (matchb_range p s'). lia.
Qed.

Lemma count_all_repeat_empty n p : count_all (repeat empty_slot n) p = 0.
Proof. induction n; simpl; [reflexivity|]. rewrite IHn. reflexivity. Qed.

End AdmissionFacts.

(** ** Admission bound over every interleaving *)

Module AdmissionBound.
Import Limits Err Admission Cluster AdmissionFacts.

Section Bound.
Variable pidof : nat -> Z.
Variable uid : nat -> Z.
Variable dbid : nat -> Z.
Variable lim : Z -> Z -> QoSLimits.

Local Abbreviation slots_ok := (Cluster.slots_ok pidof uid dbid).
Local Abbreviation bound_ok := (Cluster.bound_ok lim).
Local Abbreviation owned := (Cluster.owned pidof uid dbid).

Lemma slots_ok_insert n l b s :
  slots_ok n l -> (b < n)%nat ->
  (s = empty_slot \/ (pid s = pidof b /\ role_oid s = uid b /\ database_oid s = dbid b)) ->
  slots_ok n (<[b := s]> l).
Proof.
  intros [Hlen Hs] Hb Hnew. split.
  - rewrite length_insert. exact Hlen.
  - intros b' s' Hl. destruct (decide (b = b')) as [->|Hne].
    + rewrite list_lookup_insert_eq in Hl by lia. injection Hl as <-. exact Hnew.
    + rewrite list_lookup_insert_ne in Hl by exact Hne. eapply Hs; eauto.
Qed.

Lemma slot_of_ok n l b : slots_ok n l -> (b < n)%nat ->
  slot_of l b = empty_slot \/
  (pid (slot_of l b) = pidof b /\ role_oid (slot_of l b) = uid b /\
   database_oid (slot_of l b) = dbid b).
Proof.
  intros [Hlen Hs] Hb. apply (Hs b). apply slot_of_lookup. lia.
Qed.

(** A rewrite of slot [b] that keeps its pid, role and database and does
    not newly set the field the other scan looks at. *)
Lemma matchb_same_owner p (old s : BackendStatus) :
  pid s = pid old -> (p s = true -> p old = true) -> matchb p s <= matchb p old.
Proof.
  intros Hp Himp. unfold matchb. rewrite Hp.
  destruct (pid old =? 0); [lia|]. destruct (p s) eqn:E.
  - rewrite (Himp eq_refl). lia.
  - destruct (p old); lia.
Qed.

Lemma lookup_repeat_eq {A} (x : A) n : forall b s, repeat x n !! b = Some s -> s = x.
Proof.
  induction n as [|n IH]; intros [|b] s H; simpl in H; try discriminate.
  - congruence.
  - eapply IH; exact H.
Qed.

(** One write of slot [b]: for each limited key the written slot either
    matches no more than the old one, or the scan saw fewer peers than
    the limit. *)
Lemma insert_preserves n l b s' :
  slots_ok n l -> bound_ok l -> (b < n)%nat -> owned b s' ->
  (forall r d k L, stmt_limit (lim r d) k = Some L -> L > 0 ->
     matchb (stmt_match r d k) s' <= matchb (stmt_match r d k) (slot_of l b) \/
     count_peers 0 l b (stmt_match r d k) < L) ->
  (forall r d, max_concurrent_tx (lim r d) >= 0 ->
     matchb (tx_match r d) s' <= matchb (tx_match r d) (slot_of l b) \/
     count_peers 0 l b (tx_match r d) < max_concurrent_tx (lim r d)) ->
  slots_ok n (<[b := s']> l) /\ bound_ok (<[b := s']> l).
Proof.
  intros Hok [Hst Htx] Hb Hown Hs Ht.
  assert (Hlen : (b < length l)%nat) by (destruct Hok as [-> _]; exact Hb).
  split; [apply slots_ok_insert; assumption|split].
  - intros r d k L Hk HL. destruct (Hs r d k L Hk HL) as [Hm|Hc].
    + eapply Z.le_trans; [apply count_replace_le; assumption|]. apply Hst; assumption.
    + apply count_replace_reg; assumption.
  - intros r d HL. destruct (Ht r d HL) as [Hm|Hc].
    + eapply Z.le_trans; [apply count_replace_le; assumption|]. apply Htx; assumption.
    + apply count_replace_reg; assumption.
Qed.

Lemma stmt_limit_kind l k L : stmt_limit l k = Some L -> cmd_eqb CMD_UNKNOWN k = false.
Proof. destruct k; simpl; congruence. Qed.

Lemma matchb_zero p s : p s = false -> forall s0, matchb p s <= matchb p s0.
Proof.
  intros H s0. pose proof (matchb_range p s0). unfold matchb at 1. rewrite H.
  destruct (pid s =? 0); lia.
Qed.

Lemma reachable_invariant n w :
  reachable pidof uid dbid lim n w ->
  slots_ok n (backend_status (shm w)) /\ bound_ok (backend_status (shm w)).
Proof.
  induction 1 as [|w o Hr [Hok Hbd] Hb].
  - simpl. split; [split|split].
    + apply repeat_length.
    + intros b s Hl. left. eapply lookup_repeat_eq; exact Hl.
    + intros. rewrite count_all_repeat_empty. lia.
    + intros. rewrite count_all_repeat_empty. lia.
  - set (l := backend_status (shm w)) in *.
    assert (Hlen : (op_backend o < length l)%nat) by (destruct Hok as [-> _]; exact Hb).
    destruct o as [b en op|b en|b en|b en]; simpl in Hb, Hlen; cbn [run_op].
    + unfold qos_track_statement_start.
      destruct (negb en || statement_tracked (locals w b)); [split; assumption|].
      destruct (stmt_limit (lim (uid b) (dbid b)) op) as [lv|] eqn:El; [|split; assumption].
      cbn [proc_of my_slot my_pid my_user my_db].
      destruct ((lv >? 0) && (count_peers 0 (backend_status (shm w)) b
                  (stmt_match (uid b) (dbid b) op) >=? lv)) eqn:Ec; [split; assumption|].
      simpl. fold l in Ec |- *.
      pose proof (slot_of_ok n l b Hok Hb) as Hold.
      apply insert_preserves; try assumption.
      * right. simpl. auto.
      * intros r d k L Hk HL. match goal with |- matchb _ ?s' <= _ \/ _ => destruct (stmt_match r d k s') eqn:Em end.
        -- right. unfold stmt_match in Em. simpl in Em.
           apply andb_prop in Em as [Em Ek]. apply andb_prop in Em as [Er Ed].
           apply Z.eqb_eq in Er, Ed. apply cmd_eqb_eq in Ek. subst r d k.
           rewrite El in Hk. injection Hk as ->.
           apply andb_false_iff in Ec as [Ec|Ec]; [lia|]. lia.
        -- left. apply matchb_zero. exact Em.
      * intros r d HL. left. unfold matchb, tx_match. simpl.
        destruct Hold as [Hold|(Hp&Hro&Hd)].
        -- rewrite Hold. simpl. rewrite andb_false_r. destruct (pidof b =? 0); lia.
        -- rewrite Hp, Hro, Hd. destruct (pidof b =? 0); [lia|].
           destruct ((uid b =? r) && (dbid b =? d) && in_transaction (slot_of l b)); lia.
    + unfold qos_track_statement_end.
      destruct (negb en || negb (statement_tracked (locals w b))); [split; assumption|].
      cbn [proc_of my_slot my_pid my_user my_db].
      destruct (pid (slot_of (backend_status (shm w)) b) =? pidof b) eqn:Ep;
        [|split; assumption].
      simpl. fold l in Ep |- *.
      pose proof (slot_of_ok n l b Hok Hb) as Hold.
      apply insert_preserves; try assumption.
      * destruct Hold as [Hold|(Hp&Hro&Hd)].
        -- left. rewrite Hold. reflexivity.
        -- right. simpl. auto.
      * intros r d k L Hk HL. left. apply matchb_same_owner; [reflexivity|].
        unfold stmt_match. cbn [cmd_type]. rewrite (stmt_limit_kind _ _ _ Hk), andb_false_r.
        discriminate.
      * intros r d HL. left. apply matchb_same_owner; [reflexivity|].
        unfold tx_match. simpl. auto.
    + unfold qos_track_transaction_start.
      destruct (negb en || transaction_tracked (locals w b)); [split; assumption|].
      destruct (negb (max_concurrent_tx (lim (uid b) (dbid b)) >? 0)) eqn:Epos;
        [split; assumption|].
      cbn [proc_of my_slot my_pid my_user my_db].
      destruct (count_peers 0 (backend_status (shm w)) b (tx_match (uid b) (dbid b))
                  >=? max_concurrent_tx (lim (uid b) (dbid b))) eqn:Ec; [split; assumption|].
      simpl. fold l in Ec |- *.
      pose proof (slot_of_ok n l b Hok Hb) as Hold.
      apply insert_preserves; try assumption.
      * right. simpl. auto.
      * intros r d k L Hk HL. left. destruct Hold as [Hold|(Hp&Hro&Hd)].
        -- apply matchb_zero. unfold stmt_match. cbn [cmd_type]. rewrite Hold.
           cbn [cmd_type empty_slot].
           rewrite (stmt_limit_kind _ _ _ Hk), andb_false_r. reflexivity.
        -- apply matchb_same_owner; [simpl; congruence|].
           unfold stmt_match. simpl. rewrite Hro, Hd. auto.
      * intros r d HL. match goal with |- matchb _ ?s' <= _ \/ _ => destruct (tx_match r d s') eqn:Em end.
        -- right. unfold tx_match in Em. simpl in Em. rewrite andb_true_r in Em.
           apply andb_prop in Em as [Er Ed]. apply Z.eqb_eq in Er, Ed. subst r d. lia.
        -- left. apply matchb_zero. exact Em.
    + unfold qos_track_transaction_end.
      destruct (negb en || negb (transaction_tracked (locals w b))); [split; assumption|].
      cbn [proc_of my_slot my_pid my_user my_db].
      destruct (pid (slot_of (backend_status (shm w)) b) =? pidof b) eqn:Ep;
        [|split; assumption].
      simpl. fold l in Ep |- *.
      pose proof (slot_of_ok n l b Hok Hb) as Hold.
      apply insert_preserves; try assumption.
      * destruct Hold as [Hold|(Hp&Hro&Hd)].
        -- left. rewrite Hold. reflexivity.
        -- right. simpl. auto.
      * intros r d k L Hk HL. left. apply matchb_same_owner; [reflexivity|].
        unfold stmt_match. simpl. auto.
      * intros r d HL. left. apply matchb_same_owner; [reflexivity|].
        unfold tx_match. simpl. rewrite andb_false_r. discriminate.
Qed.

End Bound.
End AdmissionBound.

(** ** Helper facts for the claims *)

Module ClaimFacts.
Import Limits Err Parse Catalog Admission Nodes Resource Epoch SpecDefs.


Lemma adjust_within p W : gathers_within W (qos_adjust_parallel_workers p W).
Proof.
  induction p as [|tag nw l IHl r IHr]; simpl; [exact I|].
  split; [|split; assumption].
  destruct tag; simpl; intros Ht.
  - destruct (nw >? W) eqn:E; lia.
  - destruct (nw >? W) eqn:E; lia.
  - destruct Ht; discriminate.
Qed.

Lemma multiplier_spec suf m :
  (if negb (negb (String.eqb suf EmptyString)) then Some 1
   else if strcaseeq suf "kb" || strcaseeq suf "k" then Some 1024
   else if strcaseeq suf "mb" || strcaseeq suf "m" then Some (1024 * 1024)
   else if strcaseeq suf "gb" || strcaseeq suf "g" then Some (1024 * 1024 * 1024)
   else None) = Some m <-> In (lower suf, m) spec_suffixes.
Proof.
  destruct (String.eqb_spec suf EmptyString) as [->|Hne]; simpl.
  - split; [intros [= <-]; left; reflexivity|].
    intros H; intuition congruence.
  - assert (Hl : lower suf <> EmptyString) by (destruct suf; simpl; congruence).
    unfold strcaseeq.
    replace (lower "kb") with "kb"%string by reflexivity.
    replace (lower "k") with "k"%string by reflexivity.
    replace (lower "mb") with "mb"%string by reflexivity.
    replace (lower "m") with "m"%string by reflexivity.
    replace (lower "gb") with "gb"%string by reflexivity.
    replace (lower "g") with "g"%string by reflexivity.
    remember (lower suf) as ls. unfold spec_suffixes, In.
    repeat match goal with
           | |- context [String.eqb ls ?k] => destruct (String.eqb_spec ls k) as [->|?]
           end; cbn [orb]; intuition congruence.
Qed.

Lemma scan_limits_shape key_db key_role cmdid cat st :
  let '(_, tr, cat', _) := qos_scan_limits key_db key_role cmdid cat st in
  exists u, tr = [TableOpen RowExclusiveLock; BeginScan; GetNext] ++ u
                 ++ [EndScan; TableClose RowExclusiveLock] /\
    ((u = [] /\ cat' = cat) \/
     exists nc, u = [CatalogTupleUpdate nc] /\ cat' = replace_config key_db key_role nc cat).
Proof.
  unfold qos_scan_limits.
  destruct (find_row key_db key_role cat) as [row|];
    [|exists []; split; [reflexivity|left; split; reflexivity]].
  destruct (setconfig row) as [configs|];
    [|exists []; split; [reflexivity|left; split; reflexivity]].
  destruct (qos_cleanup_invalid_qos_settings cmdid row configs st) as [[cleaned [nc|]] st'].
  - exists [CatalogTupleUpdate nc]. split; [reflexivity|right; exists nc; split; reflexivity].
  - exists []. split; [reflexivity|left; split; reflexivity].
Qed.

Lemma strtoll_range s v e b : strtoll s = Some (v, e, b) -> INT64_MIN <= v <= INT64_MAX.
Proof.
  unfold strtoll.
  repeat match goal with
         | |- context [match ?x with pair _ _ => _ end] => destruct x
         end.
  match goal with |- context [if (?n =? 0)%nat then _ else _] => destruct (n =? 0)%nat end;
    [discriminate|].
  match goal with |- context [if ?x >? INT64_MAX then _ else _] =>
    destruct (x >? INT64_MAX) eqn:E1 end;
    [intros [= <- _ _]; unfold INT64_MIN, INT64_MAX; lia|].
  match goal with |- context [if ?x <? INT64_MIN then _ else _] =>
    destruct (x <? INT64_MIN) eqn:E2 end;
    [intros [= <- _ _]; unfold INT64_MIN, INT64_MAX; lia|].
  intros [= <- _ _]. lia.
Qed.

Lemma with_wm_epoch st w : settings_epoch (with_wm st w) = settings_epoch st /\
                           shm_trace (with_wm st w) = shm_trace st.
Proof. split; reflexivity. Qed.



End ClaimFacts.

(* ===================================================================== *)
(** * The claims *)
(* ===================================================================== *)

Module Claims.
Import Limits Err Parse Catalog Admission Cluster Nodes Resource Epoch.
Import AdmissionFacts AdmissionBound ClaimFacts SpecDefs.

(** C1 (amended).  In every state reachable from startup by any
    interleaving of the admission calls of backends [0 .. n-1], each with
    a fixed user and database and all reading the effective limits
    [lim], a (role, database, kind) whose limit [L] is positive has at
    most [L] registered statements, and a (role, database) whose
    [max_concurrent_tx] is [L >= 0] has at most [L] registered
    transactions.  A statement limit of 0 is not enforced. *)
Theorem admission_bound (pidof uid dbid : nat -> Z) (lim : Z -> Z -> QoSLimits)
    (n : nat) (w : World) :
  reachable pidof uid dbid lim n w ->
  (forall r d k L, stmt_limit (lim r d) k = Some L -> L > 0 ->
     registered_stmt w r d k <= L) /\
  (forall r d, max_concurrent_tx (lim r d) >= 0 ->
     registered_tx w r d <= max_concurrent_tx (lim r d)).
Proof.
  intros Hr. destruct (reachable_invariant pidof uid dbid lim n w Hr) as [_ [Hs Ht]].
  split; [exact Hs | exact Ht].
Qed.

Lemma admission_bound_witness :
  let pidof := fun b : nat => 100 + Z.of_nat b in
  let lim := fun _ _ : Z => set_max_concurrent_select default_limits 1 in
  let w := run_op pidof (fun _ => 10) (fun _ => 5) lim (OStmtStart 1 true CMD_SELECT)
             (run_op pidof (fun _ => 10) (fun _ => 5) lim (OStmtStart 0 true CMD_SELECT)
                (world_init 2)) in
  reachable pidof (fun _ => 10) (fun _ => 5) lim 2 w /\
  registered_stmt w 10 5 CMD_SELECT <= 1 /\ registered_stmt w 10 5 CMD_SELECT = 1.
Proof.
  intros pidof lim w.
  assert (Hr : reachable pidof (fun _ => 10) (fun _ => 5) lim 2 w).
  { apply reach_step; [apply reach_step; [apply reach_init | simpl; lia] | simpl; lia]. }
  split; [exact Hr|split].
  - apply (proj1 (admission_bound pidof (fun _ => 10) (fun _ => 5) lim 2 w Hr)
                 10 5 CMD_SELECT 1); [reflexivity | lia].
  - vm_compute. reflexivity.
Defined.

(** C1 counterexample: with [max_concurrent_select = 0] a backend
    registers its SELECT, so one statement is registered while [L = 0]. *)
Lemma admission_bound_zero_limit_cex :
  let pidof := fun b : nat => 100 + Z.of_nat b in
  let lim0 := fun _ _ : Z => set_max_concurrent_select default_limits 0 in
  let w1 := run_op pidof (fun _ => 10) (fun _ => 5) lim0 (OStmtStart 0 true CMD_SELECT)
              (world_init 1) in
  reachable pidof (fun _ => 10) (fun _ => 5) lim0 1 w1 /\
  max_concurrent_select (lim0 10 5) = 0 /\
  registered_stmt w1 10 5 CMD_SELECT = 1.
Proof.
  intros pidof lim0 w1.
  split; [apply reach_step; [apply reach_init | simpl; lia]|].
  vm_compute. repeat split; reflexivity.
Qed.




(** C3.  A refused statement gets [PROGRAM_LIMIT_EXCEEDED], the detail
    "Current: N, Maximum: M" with N the counted peers and M the positive
    limit (N >= M), and the hint; in the same transition the kind's
    violation counter and [rejected_queries] grow by one.  The same holds
    for a refused transaction with [concurrent_tx_violations]; a
    work_mem refusal carries [INSUFFICIENT_RESOURCES] instead. *)
Theorem rejection_contract :
  (forall en me limits op sh loc e sh' loc',
     qos_track_statement_start en me limits op sh loc = Refused e sh' loc' ->
     exists N M,
       stmt_limit limits op = Some M /\ M > 0 /\ N >= M /\
       N = count_peers 0 (backend_status sh) (my_slot me) (stmt_match (my_user me) (my_db me) op) /\
       err_code e = ERRCODE_PROGRAM_LIMIT_EXCEEDED /\
       err_detail e = detail_current_max N M /\
       err_hint e = "Wait for other queries to complete"%string /\
       kind_counter op (stats sh') = kind_counter op (stats sh) + 1 /\
       rejected_queries (stats sh') = rejected_queries (stats sh) + 1) /\
  (forall en me limits sh loc e sh' loc',
     qos_track_transaction_start en me limits sh loc = Refused e sh' loc' ->
     exists N,
       max_concurrent_tx limits > 0 /\ N >= max_concurrent_tx limits /\
       N = count_peers 0 (backend_status sh) (my_slot me) (tx_match (my_user me) (my_db me)) /\
       err_code e = ERRCODE_PROGRAM_LIMIT_EXCEEDED /\
       err_detail e = detail_current_max N (max_concurrent_tx limits) /\
       err_hint e = "Wait for other transactions to complete"%string /\
       concurrent_tx_violations (stats sh') = concurrent_tx_violations (stats sh) + 1 /\
       rejected_queries (stats sh') = rejected_queries (stats sh) + 1) /\
  (forall en limits shm stmt st e st',
     qos_enforce_work_mem_limit en limits shm stmt st = WmError e st' ->
     err_code e = ERRCODE_INSUFFICIENT_RESOURCES).
Proof.
  split; [|split].
  - intros en me limits op sh loc e sh' loc'. unfold qos_track_statement_start.
    destruct (negb en || statement_tracked loc); [discriminate|].
    destruct (stmt_limit limits op) as [M|] eqn:El; [|discriminate].
    destruct ((M >? 0) && _) eqn:Ec; [|discriminate].
    intros H. injection H as <- <- <-.
    apply andb_prop in Ec as [E1 E2].
    exists (count_peers 0 (backend_status sh) (my_slot me) (stmt_match (my_user me) (my_db me) op)), M.
    split; [reflexivity|]. split; [lia|]. split; [lia|].
    split; [reflexivity|]. simpl. repeat split; try reflexivity;
      destruct op; simpl in El |- *; try discriminate; reflexivity.
  - intros en me limits sh loc e sh' loc'. unfold qos_track_transaction_start.
    destruct (negb en || transaction_tracked loc); [discriminate|].
    destruct (negb (max_concurrent_tx limits >? 0)) eqn:Ep; [discriminate|].
    destruct (_ >=? max_concurrent_tx limits) eqn:Ec; [|discriminate].
    intros H. injection H as <- <- <-.
    exists (count_peers 0 (backend_status sh) (my_slot me) (tx_match (my_user me) (my_db me))).
    split; [lia|]. split; [lia|]. split; [reflexivity|].
    simpl. repeat split; reflexivity.
  - intros en limits shm stmt st e st'. unfold qos_enforce_work_mem_limit.
    destruct (negb en); [discriminate|].
    destruct (work_mem_limit limits <? 0); [discriminate|].
    destruct stmt as [s|].
    + destruct (negb (is_set_work_mem s)); [discriminate|].
      destruct (args s) as [|[i|v|] rest]; try discriminate;
        match goal with |- context [if ?c then _ else _] => destruct c end;
        try discriminate; intros H; injection H as <- _; reflexivity.
    + destruct (work_mem_enforced _); [discriminate|].
      destruct (_ >? work_mem_limit limits); discriminate.
Qed.

Lemma rejection_contract_witness :
  let me := mkProc 1 200 10 5 in
  let sh := mkShared stats_zero [mkStatus 100 10 5 CMD_SELECT false; empty_slot] in
  let lims := set_max_concurrent_select default_limits 1 in
  (exists e sh' loc', qos_track_statement_start true me lims CMD_SELECT sh local_init
                        = Refused e sh' loc') /\
  err_detail (mkErr ERRCODE_PROGRAM_LIMIT_EXCEEDED "" "Current: 1, Maximum: 1" "")
    = detail_current_max 1 1.
Proof.
  intros me sh lims. split.
  - destruct (qos_track_statement_start true me lims CMD_SELECT sh local_init)
      as [sh0 l0|e sh' loc'] eqn:E.
    + vm_compute in E. discriminate.
    + exists e, sh', loc'. reflexivity.
  - pose proof (proj1 rejection_contract true me lims CMD_SELECT sh local_init) as H.
    destruct (qos_track_statement_start true me lims CMD_SELECT sh local_init)
      as [sh0 l0|e sh' loc'] eqn:E.
    + vm_compute in E. discriminate.
    + destruct (H e sh' loc' eq_refl) as (N & M & HM & _ & _ & HN & _).
      vm_compute in HM. injection HM as <-. vm_compute in HN. subst N. reflexivity.
Defined.

(** C9.  A refused admission leaves the backend-status array and the
    caller's session flags exactly as they were; only the statistics
    change. *)
Theorem rejection_frame :
  (forall en me limits op sh loc e sh' loc',
     qos_track_statement_start en me limits op sh loc = Refused e sh' loc' ->
     backend_status sh' = backend_status sh /\ loc' = loc /\
     stats sh' = bump_rejected (stmt_violation op (stats sh))) /\
  (forall en me limits sh loc e sh' loc',
     qos_track_transaction_start en me limits sh loc = Refused e sh' loc' ->
     backend_status sh' = backend_status sh /\ loc' = loc /\
     stats sh' = bump_rejected (bump_tx (stats sh))).
Proof.
  split.
  - intros en me limits op sh loc e sh' loc'. unfold qos_track_statement_start.
    destruct (negb en || statement_tracked loc); [discriminate|].
    destruct (stmt_limit limits op) as [M|]; [|discriminate].
    destruct (_ && _); [|discriminate].
    intros H. injection H as _ <- <-. auto.
  - intros en me limits sh loc e sh' loc'. unfold qos_track_transaction_start.
    destruct (negb en || transaction_tracked loc); [discriminate|].
    destruct (negb _); [discriminate|].
    destruct (_ >=? _); [|discriminate].
    intros H. injection H as _ <- <-. auto.
Qed.

Lemma rejection_frame_witness :
  let me := mkProc 1 200 10 5 in
  let sh := mkShared stats_zero [mkStatus 100 10 5 CMD_SELECT true; empty_slot] in
  let lims := set_max_concurrent_tx default_limits 1 in
  match qos_track_transaction_start true me lims sh local_init with
  | Refused _ sh' loc' => backend_status sh' = backend_status sh /\ loc' = local_init
  | Proceed _ _ => False
  end.
Proof.
  intros me sh lims.
  pose proof (proj2 rejection_frame true me lims sh local_init) as H.
  destruct (qos_track_transaction_start true me lims sh local_init)
    as [sh0 l0|e sh' loc'] eqn:E.
  - vm_compute in E. discriminate.
  - destruct (H e sh' loc' eq_refl) as (H1 & H2 & _). split; assumption.
Defined.

(** C10.  Applying [qos.enabled] succeeds and leaves the limits unchanged,
    whatever the value (even missing) and the mode. *)
Theorem qos_enabled_value_ignored (limits : QoSLimits) (value : option string) (strict : bool) :
  qos_apply_qos_param_value limits "qos.enabled" value strict = Ret (true, limits).
Proof. reflexivity. Qed.




(** C5 (amended).  With [qos.enabled] on and an effective
    [cpu_core_limit] [C > 0], every Gather and Gather Merge node reached
    through [lefttree]/[righttree] in each subplan ends with at most
    [max(0, C - 1)] workers, and so does the main plan tree when the
    statement has [parallelModeNeeded]; without that flag the main tree
    is left as it was.  With [C <= 0] or [qos.enabled] off nothing
    changes. *)
Theorem planner_clamp (en : bool) (limits : QoSLimits) (result : PlannedStmt) :
  (en = true -> cpu_core_limit limits > 0 ->
     Forall (gathers_within (Z.max 0 (cpu_core_limit limits - 1)))
            (subplans (qos_planner_hook en limits result)) /\
     (parallelModeNeeded result = true ->
        gathers_within (Z.max 0 (cpu_core_limit limits - 1))
                       (planTree (qos_planner_hook en limits result))) /\
     (parallelModeNeeded result = false ->
        planTree (qos_planner_hook en limits result) = planTree result)) /\
  (en = false \/ cpu_core_limit limits <= 0 -> qos_planner_hook en limits result = result).
Proof.
  split.
  - intros -> HC. unfold qos_planner_hook. simpl negb.
    destruct (cpu_core_limit limits >? 0) eqn:E; [|lia]. simpl negb. cbv iota.
    assert (Hw : (if cpu_core_limit limits >? 1 then cpu_core_limit limits - 1 else 0)
                 = Z.max 0 (cpu_core_limit limits - 1))
      by (destruct (cpu_core_limit limits >? 1) eqn:E1; lia).
    rewrite Hw. simpl. split; [|split].
    + apply Forall_forall. intros x Hx. apply list_elem_of_In, in_map_iff in Hx as (sp & <- & _).
      destruct sp; [exact I|apply adjust_within].
    + intros ->. simpl. destruct (planTree result); [exact I|apply adjust_within].
    + intros ->. reflexivity.
  - intros [->|HC]; [reflexivity|]. unfold qos_planner_hook.
    destruct en; [|reflexivity]. simpl negb.
    destruct (cpu_core_limit limits >? 0) eqn:E; [lia|reflexivity].
Qed.

Lemma planner_clamp_witness :
  let limits := set_cpu_core_limit default_limits 3 in
  let result := mkPlanned true (PNode Gather 8 (PNode GatherMerge 6 PNull PNull) PNull) [] in
  gathers_within 2 (planTree (qos_planner_hook true limits result)).
Proof.
  intros limits result.
  apply (proj1 (proj2 (proj1 (planner_clamp true limits result) eq_refl
                        ltac:(vm_compute; reflexivity))) eq_refl).
Defined.

(** C5 counterexample: a Gather with 8 workers in the main tree of a
    statement without [parallelModeNeeded], [cpu_core_limit = 2]: the
    hook leaves it at 8, above [max(0, 2 - 1) = 1]. *)
Lemma planner_main_tree_unclamped_cex :
  let limits := set_cpu_core_limit default_limits 2 in
  let result := mkPlanned false (PNode Gather 8 PNull PNull) [] in
  planTree (qos_planner_hook true limits result) = PNode Gather 8 PNull PNull /\
  ~ gathers_within (Z.max 0 (cpu_core_limit limits - 1)) (planTree (qos_planner_hook true limits result)).
Proof.
  intros limits result. split; [reflexivity|].
  cbn. intros [H _]. specialize (H (or_introl eq_refl)). lia.
Qed.

(** C6 (amended).  [qos_parse_memory_value] accepts exactly the strings
    on which [strtoll] converts a value [base] without overflow, followed
    (after blanks) by nothing or by one of k, kB, m, MB, g, GB in any
    case, with [base >= -1], no suffix after [-1], and [base * m] within
    [int64]; the result is [base * m] bytes: no suffix means bytes. *)
Theorem parse_memory_value_contract (s : string) (v : Z) :
  qos_parse_memory_value s = Some v <->
  exists base endptr m,
    strtoll s = Some (base, endptr, false) /\
    In (lower (skip_space endptr), m) spec_suffixes /\
    (base = -1 -> skip_space endptr = EmptyString) /\
    -1 <= base /\ base * m <= INT64_MAX /\ v = base * m.
Proof.
  unfold qos_parse_memory_value.
  destruct (String.eqb_spec s EmptyString) as [->|Hne].
  { split; [discriminate|]. intros (b & e & m & H & _). vm_compute in H. discriminate. }
  destruct (strtoll s) as [[[base endptr] erange]|] eqn:Hs.
  2: { split; [discriminate|]. intros (b & e & m & H & _). discriminate. }
  destruct erange.
  { split; [discriminate|]. intros (b & e & m & H & _). congruence. }
  cbv zeta.
  pose proof (multiplier_spec (skip_space endptr)) as HM.
  pose proof (strtoll_range s base endptr false Hs) as Hrange.
  destruct (if negb (negb (String.eqb (skip_space endptr) EmptyString)) then Some 1
            else if strcaseeq (skip_space endptr) "kb" || strcaseeq (skip_space endptr) "k"
                 then Some 1024
            else if strcaseeq (skip_space endptr) "mb" || strcaseeq (skip_space endptr) "m"
                 then Some (1024 * 1024)
            else if strcaseeq (skip_space endptr) "gb" || strcaseeq (skip_space endptr) "g"
                 then Some (1024 * 1024 * 1024)
            else None) as [m|] eqn:Em.
  2: { split; [discriminate|]. intros (b & e & m' & Hs' & Hin & _).
       injection Hs' as <- <-. apply HM in Hin. congruence. }
  assert (Hm : m = 1 \/ m = 1024 \/ m = 1048576 \/ m = 1073741824).
  { pose proof (proj1 (HM m) eq_refl) as Hin0. unfold spec_suffixes, In in Hin0.
    destruct Hin0 as [H|[H|[H|[H|[H|[H|[H|[]]]]]]]]; injection H; intros; lia. }
  unfold INT64_MAX, INT64_MIN in *.
  split.
  - intros H.
    destruct ((base =? -1) && negb (String.eqb (skip_space endptr) EmptyString)) eqn:E1;
      [discriminate|].
    destruct (base <? -1) eqn:E2; [discriminate|].
    destruct ((base >? 0) && (m >? 1) && (base >? 9223372036854775807 / m)) eqn:E3;
      [discriminate|].
    injection H as <-. exists base, endptr, m.
    split; [reflexivity|]. split; [apply HM; reflexivity|]. split.
    + intros ->. simpl in E1. apply negb_false_iff in E1. apply String.eqb_eq. exact E1.
    + split; [lia|]. split; [|reflexivity].
      destruct (Z.gtb_spec base 0); [|nia].
      destruct (Z.gtb_spec m 1); [|nia].
      destruct (Z.gtb_spec base (9223372036854775807 / m)); [discriminate|].
      pose proof (Z.mul_div_le 9223372036854775807 m ltac:(lia)). nia.
  - intros (b & e & m' & Hs' & Hin & Hneg & Hb & Hov & ->).
    injection Hs' as <- <-.
    assert (m' = m) as -> by (apply HM in Hin; congruence).
    assert (E1 : (base =? -1) && negb (String.eqb (skip_space endptr) EmptyString) = false).
    { destruct (Z.eqb_spec base (-1)) as [Hb1|]; [rewrite (Hneg Hb1); reflexivity|reflexivity]. }
    assert (E2 : (base <? -1) = false) by (apply Z.ltb_ge; lia).
    assert (E3 : (base >? 0) && (m >? 1) && (base >? 9223372036854775807 / m) = false).
    { destruct (Z.gtb_spec base 0); [|reflexivity].
      destruct (Z.gtb_spec m 1); [|reflexivity].
      simpl. rewrite Z.gtb_ltb. apply Z.ltb_ge, Z.div_le_lower_bound; lia. }
    rewrite E1, E2, E3. reflexivity.
Qed.

(** C6 counterexample: ["12"] is 12 bytes, not 12 kB; ["-5"] is rejected. *)
Lemma parse_memory_no_suffix_bytes_cex :
  qos_parse_memory_value "12" = Some 12 /\ 12 <> 12 * 1024 /\
  qos_parse_memory_value "-5" = None.
Proof. vm_compute. repeat split; congruence. Qed.

(** C7 (amended).  With [qos.enabled] on and a set effective
    [work_mem_limit], a [SET work_mem] whose requested size in bytes
    (an integer in kB times 1024, or a string through
    [qos_parse_memory_unit]) exceeds the limit is always refused with
    [INSUFFICIENT_RESOURCES]; [work_mem_violations] grows by one and the
    session's [work_mem] is not lowered.  [work_mem_error_level] plays no
    part: the outcome is the same for every value of it. *)
Theorem work_mem_set_always_rejected (limits : QoSLimits) (shm : option Z) (st : WmState)
    (s : VariableSetStmt) (b : Z) :
  work_mem_limit limits >= 0 -> is_set_work_mem s = true ->
  match args s with
  | ArgInteger i :: _ => b = i * 1024
  | ArgString v :: _ => b = qos_parse_memory_unit v
  | _ => False
  end ->
  b > work_mem_limit limits ->
  (exists e st', qos_enforce_work_mem_limit true limits shm (Some s) st = WmError e st' /\
     err_code e = ERRCODE_INSUFFICIENT_RESOURCES /\
     guc_work_mem st' = guc_work_mem st /\
     work_mem_violations st' = work_mem_violations st + (if shm then 1 else 0)) /\
  (forall en stmt lvl,
     qos_enforce_work_mem_limit en (set_work_mem_error_level limits lvl) shm stmt st =
     qos_enforce_work_mem_limit en limits shm stmt st).
Proof.
  intros Hl Hs Hb Hgt. split.
  - exists (work_mem_error b (work_mem_limit limits)), (bump_wm_violation shm st).
    split; [|split; [reflexivity|split]].
    + unfold qos_enforce_work_mem_limit. simpl negb.
      destruct (Z.ltb_spec (work_mem_limit limits) 0); [lia|].
      rewrite Hs. simpl negb. cbv iota.
      destruct (args s) as [|[i|v|] rest]; try contradiction; subst b;
        (match goal with |- context [if ?x >? work_mem_limit limits then _ else _] =>
           destruct (Z.gtb_spec x (work_mem_limit limits)); [reflexivity|lia] end).
    + destruct shm; reflexivity.
    + destruct shm; simpl; lia.
  - intros en stmt lvl. reflexivity.
Qed.

Lemma work_mem_set_always_rejected_witness :
  let limits := set_work_mem_limit default_limits 1048576 in
  let s := mkSetStmt VAR_SET_VALUE (Some "work_mem"%string) [ArgInteger 4096] in
  exists e st', qos_enforce_work_mem_limit true limits (Some 0) (Some s) (wm_init 4096)
                  = WmError e st' /\ guc_work_mem st' = 4096.
Proof.
  intros limits s.
  destruct (proj1 (work_mem_set_always_rejected limits (Some 0) (wm_init 4096) s (4096 * 1024)
                     ltac:(vm_compute; discriminate) eq_refl eq_refl
                     ltac:(vm_compute; reflexivity)))
    as (e & st' & H1 & _ & H3 & _).
  exists e, st'. split; [exact H1|exact H3].
Defined.

(** C7 counterexample: at level warning, [SET work_mem = 4096] (kB)
    against a 1 MB limit is refused with an error and [work_mem] stays
    4096; nothing is lowered to the limit. *)
Lemma work_mem_warning_level_cex :
  let limits := set_work_mem_error_level (set_work_mem_limit default_limits 1048576)
                  QOS_WORK_MEM_ERROR_WARNING in
  let s := mkSetStmt VAR_SET_VALUE (Some "work_mem"%string) [ArgInteger 4096] in
  match qos_enforce_work_mem_limit true limits (Some 0) (Some s) (wm_init 4096) with
  | WmError e st' => err_code e = ERRCODE_INSUFFICIENT_RESOURCES /\ guc_work_mem st' = 4096
  | WmDone _ => False
  end.
Proof. vm_compute. split; reflexivity. Qed.

(** C8 (amended).  Each of [qos_get_role_limits] and
    [qos_get_database_limits] opens [pg_db_role_setting] with
    [RowExclusiveLock], begins one scan, fetches once, ends the scan and
    closes the relation with the same lock; in between it performs at
    most one [CatalogTupleUpdate], which rewrites the [setconfig] of the
    row it read, and without it the catalog is unchanged. *)
Theorem catalog_reader_shape (id cmdid : Z) (cat : list DbRoleSetting) (st : CleanState) :
  (let '(_, tr, cat', _) := qos_get_role_limits id cmdid cat st in
   exists u, tr = [TableOpen RowExclusiveLock; BeginScan; GetNext] ++ u
                  ++ [EndScan; TableClose RowExclusiveLock] /\
     ((u = [] /\ cat' = cat) \/
      exists nc, u = [CatalogTupleUpdate nc] /\ cat' = replace_config InvalidOid id nc cat)) /\
  (let '(_, tr, cat', _) := qos_get_database_limits id cmdid cat st in
   exists u, tr = [TableOpen RowExclusiveLock; BeginScan; GetNext] ++ u
                  ++ [EndScan; TableClose RowExclusiveLock] /\
     ((u = [] /\ cat' = cat) \/
      exists nc, u = [CatalogTupleUpdate nc] /\ cat' = replace_config id InvalidOid nc cat)).
Proof. split; apply scan_limits_shape. Qed.

(** C8 counterexample: a role row holding the invalid entry
    [qos.cpu_core_limit=abc] is rewritten by the reader. *)
Lemma catalog_reader_writes_cex :
  let cat := [mkRow InvalidOid 10 (Some [Some "qos.cpu_core_limit=abc"%string])] in
  let '(_, tr, cat', _) := qos_get_role_limits 10 1 cat clean_init in
  In (CatalogTupleUpdate []) tr /\ In (TableOpen RowExclusiveLock) tr /\ cat' <> cat.
Proof. vm_compute. split; [right; right; right; left; reflexivity|]. split; [left; reflexivity|]. discriminate. Qed.

End Claims.

(* ===================================================================== *)
(** ** Further properties: lemmas *)
(* ===================================================================== *)

Module ExtraFacts.
Import Limits Err Parse Catalog Admission Cluster Resource Nodes CacheCallbacks Hooks ExtraDefs
  AdmissionFacts AdmissionBound ClaimFacts.

Lemma calc_limit_range r d M :
  -1 <= r <= M -> -1 <= d <= M -> -1 <= calc_limit r d <= M.
Proof.
  unfold calc_limit; intros Hr Hd.
  destruct (r >=? 0) eqn:E1, (d >=? 0) eqn:E2; simpl; lia.
Qed.

Lemma refresh_after c0 shm_epoch uid dbid cat :
  let (c1, _) := qos_refresh_cached_limits shm_epoch uid dbid cat c0 in
  limits_cached c1 = true /\ cached_user_id c1 = uid /\ cached_db_id c1 = dbid /\
  (forall e, shm_epoch = Some e -> last_seen_epoch c1 = e).
Proof.
  unfold qos_refresh_cached_limits.
  destruct shm_epoch as [e|].
  - destruct (negb (last_seen_epoch c0 =? e)) eqn:Ee; simpl.
    + destruct (cached_user_id c0 =? uid)%Z, (cached_db_id c0 =? dbid)%Z; simpl;
        repeat split; congruence.
    + apply negb_false_iff, Z.eqb_eq in Ee.
      destruct (limits_cached c0) eqn:El, (cached_user_id c0 =? uid) eqn:Eu,
        (cached_db_id c0 =? dbid) eqn:Ed; simpl;
        repeat split; try congruence; try (apply Z.eqb_eq; assumption);
        intros e' He'; injection He' as <-; assumption.
  - destruct (limits_cached c0) eqn:El, (cached_user_id c0 =? uid) eqn:Eu,
      (cached_db_id c0 =? dbid) eqn:Ed; simpl;
      repeat split; try congruence; try (apply Z.eqb_eq; assumption).
Qed.

Lemma refresh_cleared shm_epoch uid dbid cat c :
  qos_refresh_cached_limits shm_epoch uid dbid cat (clear_limits_cached c)
  = (let c1 := clear_limits_cached c in
     let c1 := match shm_epoch with Some e => mkCache (cached_limits c1) (cached_user_id c1)
                 (cached_db_id c1) false e | None => c1 end in
     let role_limits := role_limits_of cat uid in
     let db_limits := db_limits_of cat dbid in
     (mkCache
        (mkLimits
          (calc_limit (work_mem_limit role_limits) (work_mem_limit db_limits))
          (calc_limit (cpu_core_limit role_limits) (cpu_core_limit db_limits))
          (calc_limit (max_concurrent_tx role_limits) (max_concurrent_tx db_limits))
          (calc_limit (max_concurrent_select role_limits) (max_concurrent_select db_limits))
          (calc_limit (max_concurrent_update role_limits) (max_concurrent_update db_limits))
          (calc_limit (max_concurrent_delete role_limits) (max_concurrent_delete db_limits))
          (calc_limit (max_concurrent_insert role_limits) (max_concurrent_insert db_limits))
          (work_mem_error_level (cached_limits c)))
        uid dbid true (last_seen_epoch c1), true)).
Proof.
  unfold qos_refresh_cached_limits, clear_limits_cached; simpl.
  destruct shm_epoch as [e|]; simpl; [|reflexivity].
  destruct (negb (last_seen_epoch c =? e)) eqn:E; simpl; [reflexivity|].
  apply negb_false_iff, Z.eqb_eq in E; subst; reflexivity.
Qed.

Lemma adjust_min nw a b :
  (if (if nw >? a then a else nw) >? b then b else if nw >? a then a else nw)
  = (if nw >? Z.min a b then Z.min a b else nw).
Proof.
  destruct (nw >? a) eqn:E1, (a >? b) eqn:E2, (nw >? b) eqn:E3,
    (nw >? Z.min a b) eqn:E4; try reflexivity; lia.
Qed.

(** The tracking functions after a normal return. *)
Lemma tx_start_proceed_flag en me limits sh loc sh1 loc1 :
  qos_track_transaction_start en me limits sh loc = Proceed sh1 loc1 ->
  statement_tracked loc1 = statement_tracked loc /\
  current_statement_type loc1 = current_statement_type loc /\
  (transaction_tracked loc1 = false ->
   forall sh2 loc2, transaction_tracked loc2 = false ->
   qos_track_transaction_start en me limits sh2 loc2 = Proceed sh2 loc2).
Proof.
  unfold qos_track_transaction_start.
  destruct en; simpl.
  - destruct (transaction_tracked loc) eqn:Et; simpl.
    + intros H; injection H as <- <-. split; [reflexivity|split; [reflexivity|]]. congruence.
    + destruct (negb (max_concurrent_tx limits >? 0)) eqn:Em.
      * intros H; injection H as <- <-. split; [reflexivity|split; [reflexivity|]].
        intros _ sh2 loc2 E2. rewrite E2. reflexivity.
      * destruct (_ >=? _); [discriminate|].
        intros H; injection H as <- <-. simpl. split; [reflexivity|split; [reflexivity|]].
        discriminate.
  - intros H; injection H as <- <-. split; [reflexivity|split; [reflexivity|]].
    intros _ sh2 loc2 _. reflexivity.
Qed.

Lemma stmt_start_proceed_flag en me limits op sh loc sh1 loc1 :
  qos_track_statement_start en me limits op sh loc = Proceed sh1 loc1 ->
  transaction_tracked loc1 = transaction_tracked loc /\
  (statement_tracked loc1 = false ->
   forall sh2 loc2, statement_tracked loc2 = false ->
   qos_track_statement_start en me limits op sh2 loc2 = Proceed sh2 loc2).
Proof.
  unfold qos_track_statement_start.
  destruct en; simpl.
  - destruct (statement_tracked loc) eqn:Et; simpl.
    + intros H; injection H as <- <-. split; [reflexivity|]. congruence.
    + destruct (stmt_limit limits op) as [lv|] eqn:El.
      * destruct (_ && _); [discriminate|].
        intros H; injection H as <- <-. simpl. split; [reflexivity|]. discriminate.
      * intros H; injection H as <- <-. split; [reflexivity|].
        intros _ sh2 loc2 E2. rewrite E2. try rewrite El. reflexivity.
  - intros H; injection H as <- <-. split; [reflexivity|].
    intros _ sh2 loc2 _. reflexivity.
Qed.

Lemma tx_start_tracked en me limits sh loc :
  transaction_tracked loc = true ->
  qos_track_transaction_start en me limits sh loc = Proceed sh loc.
Proof. intros H. unfold qos_track_transaction_start. rewrite H, orb_true_r. reflexivity. Qed.

Lemma stmt_start_tracked en me limits op sh loc :
  statement_tracked loc = true ->
  qos_track_statement_start en me limits op sh loc = Proceed sh loc.
Proof. intros H. unfold qos_track_statement_start. rewrite H, orb_true_r. reflexivity. Qed.

Lemma tx_start_fixed en me limits sh loc sh1 loc1 sh2 loc2 :
  qos_track_transaction_start en me limits sh loc = Proceed sh1 loc1 ->
  transaction_tracked loc2 = transaction_tracked loc1 ->
  qos_track_transaction_start en me limits sh2 loc2 = Proceed sh2 loc2.
Proof.
  intros H E. destruct (tx_start_proceed_flag _ _ _ _ _ _ _ H) as (_ & _ & Hf).
  destruct (transaction_tracked loc1) eqn:E1.
  - apply tx_start_tracked. exact E.
  - apply (Hf eq_refl). exact E.
Qed.

Lemma stmt_start_fixed en me limits op sh loc sh1 loc1 sh2 loc2 :
  qos_track_statement_start en me limits op sh loc = Proceed sh1 loc1 ->
  statement_tracked loc2 = statement_tracked loc1 ->
  qos_track_statement_start en me limits op sh2 loc2 = Proceed sh2 loc2.
Proof.
  intros H E. destruct (stmt_start_proceed_flag _ _ _ _ _ _ _ _ H) as (_ & Hf).
  destruct (statement_tracked loc1) eqn:E1.
  - apply stmt_start_tracked. exact E.
  - apply (Hf eq_refl). exact E.
Qed.

Lemma track_both_fixed en me limits op sh loc sh' loc' :
  track_transaction_and_statement en me limits op sh loc = Proceed sh' loc' ->
  track_transaction_and_statement en me limits op sh' loc' = Proceed sh' loc'.
Proof.
  unfold track_transaction_and_statement.
  destruct (qos_track_transaction_start en me limits sh loc) as [sh1 loc1|e sh1 loc1] eqn:Ht;
    [|discriminate].
  destruct op;
    try (intros H; injection H as <- <-; rewrite (tx_start_fixed _ _ _ _ _ _ _ sh1 loc1 Ht eq_refl);
         reflexivity);
    (destruct (qos_track_statement_start en me limits _ sh1 loc1) as [sh2 loc2|] eqn:Hs;
       [|discriminate];
     intros H; injection H as <- <-;
     destruct (stmt_start_proceed_flag _ _ _ _ _ _ _ _ Hs) as [Etx _];
     rewrite (tx_start_fixed _ _ _ _ _ _ _ sh2 loc2 Ht Etx);
     exact (stmt_start_fixed _ _ _ _ _ _ _ _ sh2 loc2 Hs eq_refl)).
Qed.

(** Slot-wise bookkeeping. *)
Lemma slot_of_insert_eq l b s : (b < length l)%nat -> slot_of (<[b := s]> l) b = s.
Proof. intros H. unfold slot_of. rewrite list_lookup_insert_eq by lia. reflexivity. Qed.

Lemma flags_upd slots slots' locs b l' :
  flags_ok slots locs ->
  (forall c, c <> b -> slots' !! c = slots !! c) ->
  (forall s, slots' !! b = Some s -> slot_flags_ok s l') ->
  flags_ok slots' (upd_local locs b l').
Proof.
  intros H Hne Heq c s Hl. unfold upd_local.
  destruct (Nat.eqb_spec c b) as [->|Hc].
  - apply Heq; exact Hl.
  - rewrite (Hne c Hc) in Hl. apply H; exact Hl.
Qed.

Lemma flags_same slots locs b :
  flags_ok slots locs -> flags_ok slots (upd_local locs b (locs b)).
Proof.
  intros H. apply flags_upd with (slots := slots); [exact H|reflexivity|].
  intros s Hl. apply H; exact Hl.
Qed.

Lemma flags_insert slots locs b s' l' :
  flags_ok slots locs -> (b < length slots)%nat -> slot_flags_ok s' l' ->
  flags_ok (<[b := s']> slots) (upd_local locs b l').
Proof.
  intros H Hb Hs. apply flags_upd with (slots := slots); [exact H| |].
  - intros c Hc. apply list_lookup_insert_ne. congruence.
  - intros s Hl. rewrite list_lookup_insert_eq in Hl by lia. injection Hl as <-. exact Hs.
Qed.

(** [qos_track_statement_end] and [qos_track_transaction_end] with
    [qos.enabled] on, on the caller's own slot. *)
Lemma stmt_end_spec me sh loc :
  (my_slot me < length (backend_status sh))%nat ->
  (cmd_type (slot_of (backend_status sh) (my_slot me)) <> CMD_UNKNOWN ->
   statement_tracked loc = true) ->
  slot_of (backend_status sh) (my_slot me) = empty_slot \/
    pid (slot_of (backend_status sh) (my_slot me)) = my_pid me ->
  let '(sh1, loc1) := qos_track_statement_end true me sh loc in
  cmd_type (slot_of (backend_status sh1) (my_slot me)) = CMD_UNKNOWN /\
  in_transaction (slot_of (backend_status sh1) (my_slot me))
    = in_transaction (slot_of (backend_status sh) (my_slot me)) /\
  (slot_of (backend_status sh1) (my_slot me) = empty_slot \/
    pid (slot_of (backend_status sh1) (my_slot me)) = my_pid me) /\
  statement_tracked loc1 = false /\ transaction_tracked loc1 = transaction_tracked loc /\
  stats sh1 = stats sh /\
  length (backend_status sh1) = length (backend_status sh) /\
  (forall c, c <> my_slot me -> backend_status sh1 !! c = backend_status sh !! c).
Proof.
  intros Hlen Hfl Hown. unfold qos_track_statement_end. simpl.
  set (l := backend_status sh) in *. set (b := my_slot me) in *.
  set (old := slot_of l b) in *.
  destruct (statement_tracked loc) eqn:Es; simpl.
  - destruct (pid old =? my_pid me) eqn:Ep; simpl.
    + rewrite slot_of_insert_eq by exact Hlen. simpl.
      apply Z.eqb_eq in Ep.
      repeat split; auto.
      * apply length_insert.
      * intros c Hc. apply list_lookup_insert_ne. congruence.
    + destruct Hown as [He|Hp]; [|rewrite Hp, Z.eqb_refl in Ep; discriminate].
      fold old. rewrite He. repeat split; auto.
  - assert (Hc : cmd_type old = CMD_UNKNOWN).
    { destruct (cmd_type old); try reflexivity; exfalso; discriminate (Hfl ltac:(discriminate)). }
    fold old. repeat split; auto.
Qed.

Lemma tx_end_spec me sh loc :
  (my_slot me < length (backend_status sh))%nat ->
  (in_transaction (slot_of (backend_status sh) (my_slot me)) = true ->
   transaction_tracked loc = true) ->
  slot_of (backend_status sh) (my_slot me) = empty_slot \/
    pid (slot_of (backend_status sh) (my_slot me)) = my_pid me ->
  let '(sh1, loc1) := qos_track_transaction_end true me sh loc in
  in_transaction (slot_of (backend_status sh1) (my_slot me)) = false /\
  cmd_type (slot_of (backend_status sh1) (my_slot me))
    = cmd_type (slot_of (backend_status sh) (my_slot me)) /\
  transaction_tracked loc1 = false /\ statement_tracked loc1 = statement_tracked loc /\
  stats sh1 = stats sh /\
  length (backend_status sh1) = length (backend_status sh) /\
  (forall c, c <> my_slot me -> backend_status sh1 !! c = backend_status sh !! c).
Proof.
  intros Hlen Hfl Hown. unfold qos_track_transaction_end. simpl.
  set (l := backend_status sh) in *. set (b := my_slot me) in *.
  set (old := slot_of l b) in *.
  destruct (transaction_tracked loc) eqn:Et; simpl.
  - destruct (pid old =? my_pid me) eqn:Ep; simpl.
    + rewrite slot_of_insert_eq by exact Hlen. simpl.
      repeat split; auto.
      * apply length_insert.
      * intros c Hc. apply list_lookup_insert_ne. congruence.
    + destruct Hown as [He|Hp]; [|rewrite Hp, Z.eqb_refl in Ep; discriminate].
      fold old. rewrite He. repeat split; auto.
  - assert (Hi : in_transaction old = false).
    { destruct (in_transaction old); [|reflexivity]. discriminate (Hfl eq_refl). }
    fold old. repeat split; auto.
Qed.

Lemma end_both_spec me sh loc :
  (my_slot me < length (backend_status sh))%nat ->
  slot_flags_ok (slot_of (backend_status sh) (my_slot me)) loc ->
  slot_of (backend_status sh) (my_slot me) = empty_slot \/
    pid (slot_of (backend_status sh) (my_slot me)) = my_pid me ->
  let '(sh', loc') := qos_ExecutorEnd_tracking true me sh loc in
  cmd_type (slot_of (backend_status sh') (my_slot me)) = CMD_UNKNOWN /\
  in_transaction (slot_of (backend_status sh') (my_slot me)) = false /\
  statement_tracked loc' = false /\ transaction_tracked loc' = false /\
  stats sh' = stats sh /\
  (forall c, c <> my_slot me -> backend_status sh' !! c = backend_status sh !! c).
Proof.
  intros Hlen [Hfs Hft] Hown. unfold qos_ExecutorEnd_tracking.
  pose proof (stmt_end_spec me sh loc Hlen Hfs Hown) as H1.
  destruct (qos_track_statement_end true me sh loc) as [sh1 loc1].
  destruct H1 as (C1 & I1 & O1 & S1 & T1 & St1 & L1 & N1).
  assert (Hlen1 : (my_slot me < length (backend_status sh1))%nat) by lia.
  assert (Hft1 : in_transaction (slot_of (backend_status sh1) (my_slot me)) = true ->
                 transaction_tracked loc1 = true) by (rewrite I1, T1; exact Hft).
  pose proof (tx_end_spec me sh1 loc1 Hlen1 Hft1 O1) as H2.
  destruct (qos_track_transaction_end true me sh1 loc1) as [sh2 loc2].
  destruct H2 as (I2 & C2 & T2 & S2 & St2 & L2 & N2).
  repeat split; try congruence.
  intros c Hc. rewrite N2, N1 by exact Hc. reflexivity.
Qed.

(** The statistics after one admission call. *)
Lemma run_op_stats pidof uid dbid lim o w :
  let s := stats (shm w) in
  let s' := stats (shm (run_op pidof uid dbid lim o w)) in
  s' = s \/ s' = bump_rejected (bump_tx s) \/
  (exists op, op <> CMD_UNKNOWN /\ stmt_limit (lim (uid (op_backend o)) (dbid (op_backend o))) op <> None /\
              s' = bump_rejected (stmt_violation op s)).
Proof.
  destruct o as [b en op|b en|b en|b en]; cbn [run_op op_backend].
  - unfold qos_track_statement_start.
    destruct (negb en || statement_tracked (locals w b)); [left; reflexivity|].
    destruct (stmt_limit (lim (uid b) (dbid b)) op) as [lv|] eqn:El; [|left; reflexivity].
    destruct (_ && _); [|left; reflexivity].
    right; right. exists op. split; [|split; [congruence|reflexivity]].
    intros ->. discriminate.
  - unfold qos_track_statement_end.
    destruct (negb en || negb (statement_tracked (locals w b))); [left; reflexivity|].
    destruct (_ =? _); left; reflexivity.
  - unfold qos_track_transaction_start.
    destruct (negb en || transaction_tracked (locals w b)); [left; reflexivity|].
    destruct (negb _); [left; reflexivity|].
    destruct (_ >=? _); [right; left; reflexivity|left; reflexivity].
  - unfold qos_track_transaction_end.
    destruct (negb en || negb (transaction_tracked (locals w b))); [left; reflexivity|].
    destruct (_ =? _); left; reflexivity.
Qed.

(** Parsing and the catalog reader. *)
Lemma valid_name_in name :
  qos_is_valid_qos_param_name name = true -> In name qos_valid_param_names.
Proof.
  unfold qos_is_valid_qos_param_name. intros H.
  apply existsb_exists in H as (x & Hin & E). apply String.eqb_eq in E. subst. exact Hin.
Qed.

Ltac split_branches :=
  repeat match goal with
  | |- context [if ?b then _ else _] =>
      lazymatch b with true => fail | false => fail | _ => destruct b eqn:? end
  | |- context [match ?x with Some _ => _ | None => _ end] => destruct x eqn:?
  end.

Lemma apply_param_shape limits name value :
  match qos_apply_qos_param_value limits name value false with
  | Ret (true, l') => qos_apply_qos_param_value limits name value true = Ret (true, l')
  | Ret (false, l') => l' = limits /\
      (if strncaseeq_prefix name "qos."
       then exists e, qos_apply_qos_param_value limits name value true = Raise e
       else qos_apply_qos_param_value limits name value true = Ret (false, limits))
  | Raise _ => False
  end.
Proof.
  unfold qos_apply_qos_param_value.
  destruct (strncaseeq_prefix name "qos.") eqn:Hp; simpl; [|split; reflexivity].
  destruct (qos_is_valid_qos_param_name name) eqn:Hv; simpl;
    [|split; [reflexivity|eexists; reflexivity]].
  apply valid_name_in in Hv.
  repeat (destruct Hv as [<-|Hv]; [|]); [..|destruct Hv]; simpl;
    try (split; reflexivity);
    destruct value as [v|]; try (split; [reflexivity|eexists; reflexivity]);
    unfold apply_int_field, report_invalid; split_branches;
    try reflexivity; split; try reflexivity; eexists; reflexivity.
Qed.

Lemma parse_memory_value_range s m :
  qos_parse_memory_value s = Some m -> -1 <= m <= INT64_MAX.
Proof.
  unfold qos_parse_memory_value.
  destruct (String.eqb s EmptyString); [discriminate|].
  destruct (strtoll s) as [[[base endptr] er]|] eqn:Hs; [|discriminate].
  apply strtoll_range in Hs. unfold INT64_MIN, INT64_MAX in *.
  destruct er; [discriminate|].
  destruct (negb (String.eqb (skip_space endptr) EmptyString)) eqn:Hsuf; simpl.
  - split_branches; try discriminate; intros H; injection H as <-;
      repeat match goal with H : (_ && _) = false |- _ => apply andb_false_iff in H as [H|H] end;
      repeat match goal with
             | H : (_ =? _) = false |- _ => apply Z.eqb_neq in H
             | H : (_ <? _) = false |- _ => apply Z.ltb_ge in H
             | H : (_ >? _) = false |- _ => rewrite Z.gtb_ltb in H; apply Z.ltb_ge in H
             end; try discriminate;
      match goal with
      | |- context [base * ?k] =>
          assert (base <= 0 \/ base <= 9223372036854775807 / k) by lia;
          assert (0 <= 9223372036854775807 / k * k <= 9223372036854775807)
            by (split; [apply Z.mul_nonneg_nonneg; [apply Z.div_pos|]|
                        rewrite Z.mul_comm; apply Z.mul_div_le]; lia);
          nia
      end.
  - split_branches; try discriminate; intros H; injection H as <-;
      repeat match goal with
             | H : (_ <? _) = false |- _ => apply Z.ltb_ge in H
             end; lia.
Qed.

Lemma parse_int32_range s v :
  qos_parse_int32_value s 0 INT_MAX true = Some v -> -1 <= v <= INT_MAX.
Proof.
  unfold qos_parse_int32_value.
  destruct (String.eqb s EmptyString); [discriminate|].
  destruct (strtoll s) as [[[value endptr] er]|]; [|discriminate].
  destruct (negb (String.eqb endptr EmptyString) || er); [discriminate|].
  simpl. destruct (value =? -1) eqn:E1; simpl.
  - intros H; injection H as <-. unfold INT_MAX; lia.
  - destruct ((value <? 0) || (value >? INT_MAX)) eqn:E2; [discriminate|].
    intros H; injection H as <-.
    apply orb_false_iff in E2 as [E2 E3]. apply Z.ltb_ge in E2.
    rewrite Z.gtb_ltb in E3; apply Z.ltb_ge in E3. lia.
Qed.

Lemma apply_param_range limits name value strict b l' :
  limits_in_range limits ->
  qos_apply_qos_param_value limits name value strict = Ret (b, l') ->
  limits_in_range l'.
Proof.
  intros Hl. unfold qos_apply_qos_param_value, report_invalid, apply_int_field.
  destruct (negb (strncaseeq_prefix name "qos.")); simpl;
    [intros H; injection H as _ <-; exact Hl|].
  destruct (negb (qos_is_valid_qos_param_name name)); simpl;
    [destruct strict; [discriminate|intros H; injection H as _ <-; exact Hl]|].
  destruct (String.eqb name "qos.enabled"); [intros H; injection H as _ <-; exact Hl|].
  destruct value as [v|]; [|destruct strict; [discriminate|intros H; injection H as _ <-; exact Hl]].
  unfold limits_in_range in *.
  destruct Hl as (H1 & H2 & H3 & H4 & H5 & H6 & H7 & H8).
  destruct (String.eqb name "qos.work_mem_limit").
  { destruct (qos_parse_memory_value (qos_trim_whitespace v)) as [m|] eqn:Hm.
    - intros H; injection H as _ <-. apply parse_memory_value_range in Hm.
      simpl; repeat split; lia.
    - destruct strict; [discriminate|intros H; injection H as _ <-; repeat split; lia]. }
  repeat match goal with
  | |- context [if String.eqb name ?x then _ else _] => destruct (String.eqb name x)
  end;
  try (destruct (qos_parse_int32_value (qos_trim_whitespace v) 0 INT_MAX true) as [w|] eqn:Hw;
       [intros H; injection H as _ <-; apply parse_int32_range in Hw; simpl; repeat split; lia
       |destruct strict; [discriminate|intros H; injection H as _ <-; repeat split; lia]]);
  try (intros H; injection H as _ <-; repeat split; lia).
  destruct (negb (qos_parse_work_mem_error_level (qos_trim_whitespace v))).
  - destruct strict; [discriminate|intros H; injection H as _ <-; repeat split; lia].
  - intros H; injection H as _ <-. simpl.
    destruct (strcaseeq (qos_trim_whitespace v) "error");
      unfold QOS_WORK_MEM_ERROR_ERROR, QOS_WORK_MEM_ERROR_WARNING; repeat split; lia.
Qed.

Lemma parse_role_configs_range configs limits :
  limits_in_range limits -> limits_in_range (parse_role_configs configs limits).
Proof.
  unfold parse_role_configs. revert limits.
  induction configs as [|e rest IH]; intros limits Hl; simpl; [exact Hl|].
  apply IH. unfold parse_one.
  destruct e as [cs|]; [|exact Hl].
  destruct (split_at_eq cs) as [[n v]|]; [|exact Hl].
  destruct (strncaseeq_prefix (qos_trim_whitespace n) "qos."); [|exact Hl].
  destruct (qos_apply_qos_param_value limits (qos_trim_whitespace n)
              (Some (qos_trim_whitespace v)) false) as [[b l']|e] eqn:Ha; [|exact Hl].
  eapply apply_param_range; [exact Hl|exact Ha].
Qed.

Lemma default_limits_range : limits_in_range default_limits.
Proof. unfold limits_in_range, INT64_MAX, INT_MAX; simpl; lia. Qed.

Lemma scan_limits_range key_db key_role cmdid cat st :
  let '(l, _, _, _) := qos_scan_limits key_db key_role cmdid cat st in limits_in_range l.
Proof.
  unfold qos_scan_limits.
  destruct (find_row key_db key_role cat) as [row|]; [|exact default_limits_range].
  destruct (setconfig row) as [configs|]; [|exact default_limits_range].
  destruct (qos_cleanup_invalid_qos_settings cmdid row configs st) as [[cleaned upd] st'].
  destruct upd; apply parse_role_configs_range, default_limits_range.
Qed.

(** Digit strings. *)
Lemma digit_cases c : isdigit c = true ->
  c = "0"%char \/ c = "1"%char \/ c = "2"%char \/ c = "3"%char \/ c = "4"%char \/
  c = "5"%char \/ c = "6"%char \/ c = "7"%char \/ c = "8"%char \/ c = "9"%char.
Proof.
  destruct c as [[] [] [] [] [] [] [] []]; intros H; vm_compute in H;
    try discriminate H; auto 11.
Qed.

Lemma digit_not_space c : isdigit c = true -> isspace c = false.
Proof.
  intros H. apply digit_cases in H.
  repeat (destruct H as [->|H]; [reflexivity|]). subst. reflexivity.
Qed.

Lemma digit_ge_48 c : isdigit c = true -> (48 <= nat_of_ascii c)%nat.
Proof. unfold isdigit. intros H. apply andb_prop in H as [H _]. apply Nat.leb_le. exact H. Qed.

Lemma decimal_nonneg ds : forall acc, all_digits ds = true -> 0 <= acc ->
  0 <= decimal_value_from acc ds.
Proof.
  induction ds as [|c ds IH]; intros acc Hd Ha; simpl in *; [exact Ha|].
  apply andb_prop in Hd as [Hc Hd]. apply IH; [exact Hd|].
  apply digit_ge_48 in Hc. lia.
Qed.

Lemma scan_digits_app ds rest : forall acc n,
  all_digits ds = true -> (forall c r, rest = String c r -> isdigit c = false) ->
  scan_digits (ds ++ rest) acc n = (decimal_value_from acc ds, (n + String.length ds)%nat, rest).
Proof.
  induction ds as [|c ds IH]; intros acc n Hd Hr; simpl in *.
  - rewrite Nat.add_0_r. destruct rest as [|c r]; [reflexivity|].
    simpl. rewrite (Hr c r eq_refl). reflexivity.
  - apply andb_prop in Hd as [Hc Hd]. rewrite Hc, IH by assumption.
    rewrite Nat.add_succ_r. reflexivity.
Qed.

Lemma span_app_digits ds rest :
  all_digits ds = true -> (forall c r, rest = String c r -> isdigit c = false) ->
  span isdigit (ds ++ rest) = (ds, rest).
Proof.
  induction ds as [|c ds IH]; intros Hd Hr; simpl in *.
  - destruct rest as [|c r]; [reflexivity|]. simpl. rewrite (Hr c r eq_refl). reflexivity.
  - apply andb_prop in Hd as [Hc Hd]. rewrite Hc, IH by assumption. reflexivity.
Qed.

Lemma span_digits_all s : forall a b, span isdigit s = (a, b) -> all_digits a = true.
Proof.
  induction s as [|c s IH]; intros a b H; simpl in H.
  - injection H as <- _. reflexivity.
  - destruct (isdigit c) eqn:Hc.
    + destruct (span isdigit s) as [a' b'] eqn:E. injection H as <- _.
      simpl. rewrite Hc. eapply IH; reflexivity.
    + injection H as <- _. reflexivity.
Qed.

Lemma strtoll_digits ds rest :
  digit_string ds -> (forall c r, rest = String c r -> isdigit c = false) ->
  decimal_value ds <= INT64_MAX ->
  strtoll (ds ++ rest) = Some (decimal_value ds, rest, false).
Proof.
  intros [Hne Hd] Hr Hmax.
  pose proof (decimal_nonneg ds 0 Hd (Z.le_refl 0)) as Hpos.
  pose proof (scan_digits_app ds rest 0 O Hd Hr) as Hs.
  unfold decimal_value in *.
  remember (decimal_value_from 0 ds) as D eqn:HD.
  destruct ds as [|c ds']; [congruence|].
  assert (Hc : isdigit c = true) by (simpl in Hd; apply andb_prop in Hd; apply Hd).
  unfold strtoll.
  replace (skip_space (String c ds' ++ rest)) with (String c (ds' ++ rest))%string
    by (simpl; rewrite (digit_not_space c Hc); reflexivity).
  change (String c ds' ++ rest)%string with (String c (ds' ++ rest)) in Hs.
  destruct (digit_cases c Hc) as [->|[->|[->|[->|[->|[->|[->|[->|[->| ->]]]]]]]]];
    cbv beta zeta iota; rewrite Hs; cbv beta zeta iota;
    (match goal with |- context [(?n =? 0)%nat] => replace (n =? 0)%nat with false by reflexivity end);
    cbv beta zeta iota;
    (destruct (D >? INT64_MAX) eqn:E1; [rewrite Z.gtb_ltb in E1; apply Z.ltb_lt in E1; lia|]);
    (destruct (D <? INT64_MIN) eqn:E2; [apply Z.ltb_lt in E2; unfold INT64_MIN in E2; lia|]);
    reflexivity.
Qed.

(** Strings without white space are left alone by [qos_trim_whitespace]. *)
Lemma list_ascii_of_string_app s1 s2 :
  list_ascii_of_string (s1 ++ s2) = list_ascii_of_string s1 ++ list_ascii_of_string s2.
Proof. induction s1 as [|c s1 IH]; simpl; [reflexivity|]. rewrite IH. reflexivity. Qed.

Lemma drop_trailing_nospace l :
  Forall (fun c => isspace c = false) l -> drop_trailing_space_rev l = l.
Proof.
  destruct l as [|c l]; [reflexivity|]. intros H. inversion H as [|? ? Hc]; subst.
  simpl. rewrite Hc. reflexivity.
Qed.

Lemma trim_nospace s :
  Forall (fun c => isspace c = false) (list_ascii_of_string s) -> qos_trim_whitespace s = s.
Proof.
  intros H. unfold qos_trim_whitespace.
  assert (Hs : skip_space s = s).
  { destruct s as [|c s']; [reflexivity|]. simpl in H. inversion H as [|? ? Hc]; subst.
    simpl. rewrite Hc. reflexivity. }
  rewrite Hs, drop_trailing_nospace by (apply Forall_rev; exact H).
  rewrite rev_involutive. apply string_of_list_ascii_of_string.
Qed.

Lemma digits_nospace ds :
  all_digits ds = true -> Forall (fun c => isspace c = false) (list_ascii_of_string ds).
Proof.
  induction ds as [|c ds IH]; simpl; intros H; constructor.
  - apply andb_prop in H as [H _]. apply digit_not_space. exact H.
  - apply IH. apply andb_prop in H as [_ H]. exact H.
Qed.

(** [qos_normalize_work_mem_value] on a digit string followed by one of
    the units it writes. *)
Lemma normalize_digits_unit num u :
  digit_string num -> (u = "MB"%string \/ u = "kB"%string \/ u = "GB"%string) ->
  qos_normalize_work_mem_value (num ++ u) = Some (num ++ u)%string.
Proof.
  intros [Hne Hd] Hu. destruct num as [|c num']; [congruence|].
  assert (Hc : isdigit c = true) by (simpl in Hd; apply andb_prop in Hd; apply Hd).
  assert (Hr : forall c' r, u = String c' r -> isdigit c' = false)
    by (intros c' r ->; destruct Hu as [Hu|[Hu|Hu]]; injection Hu as -> _; reflexivity).
  unfold qos_normalize_work_mem_value. cbv zeta.
  replace (skip_space (String c num' ++ u)) with (String c num' ++ u)%string
    by (simpl; rewrite (digit_not_space c Hc); reflexivity).
  rewrite (span_app_digits (String c num') u Hd Hr).
  destruct Hu as [-> | [-> | ->]]; reflexivity.
Qed.

Lemma cleanup_loop_spec configs :
  let (kept, removed) := cleanup_loop configs in
  List.filter is_non_qos_entry kept = List.filter is_non_qos_entry configs /\
  ~ In None kept /\ (removed = false -> kept = configs).
Proof.
  induction configs as [|e rest IH]; simpl; [split; [reflexivity|split; [intros []|reflexivity]]|].
  destruct (cleanup_loop rest) as [kept removed].
  destruct IH as (Hf & Hn & Hr).
  destruct e as [cs|]; simpl.
  2: { split; [exact Hf|split; [exact Hn|discriminate]]. }
  destruct (strncaseeq_prefix cs "qos.") eqn:Hp.
  - assert (Hq : is_non_qos_entry (Some cs) = false) by (simpl; rewrite Hp; reflexivity).
    destruct (negb (qos_is_valid_qos_setting_entry cs)); simpl.
    + split; [exact Hf|split; [exact Hn|discriminate]].
    + destruct (split_at_eq cs) as [[n v]|];
        [|split; [simpl; try rewrite Hp; exact Hf|split; [intros [H|H]; [discriminate|exact (Hn H)]|
                                                     intros H; rewrite (Hr H); reflexivity]]].
      destruct (String.eqb (qos_trim_whitespace n) "qos.work_mem_limit") eqn:En;
        [|split; [simpl; try rewrite Hp; exact Hf|split; [intros [H|H]; [discriminate|exact (Hn H)]|
                                                   intros H; rewrite (Hr H); reflexivity]]].
      apply String.eqb_eq in En. rewrite En.
      destruct (qos_normalize_work_mem_value (qos_trim_whitespace v)) as [nv|];
        [|split; [simpl; try rewrite Hp; exact Hf|split; [intros [H|H]; [discriminate|exact (Hn H)]|
                                                   intros H; rewrite (Hr H); reflexivity]]].
      destruct (negb (String.eqb nv (qos_trim_whitespace v))).
      * split; [simpl; try rewrite Hp; exact Hf|split; [intros [H|H]; [discriminate|exact (Hn H)]|discriminate]].
      * split; [simpl; try rewrite Hp; exact Hf|split; [intros [H|H]; [discriminate|exact (Hn H)]|
                                                 intros H; rewrite (Hr H); reflexivity]].
  - split; [simpl; try rewrite Hp; simpl; f_equal; exact Hf|
            split; [intros [H|H]; [discriminate|exact (Hn H)]|intros H; rewrite (Hr H); reflexivity]].
Qed.

Lemma string_app_nil_r s : (s ++ "")%string = s.
Proof. induction s as [|c s IH]; simpl; [reflexivity|]. rewrite IH. reflexivity. Qed.

Lemma string_length_app s1 s2 :
  String.length (s1 ++ s2) = (String.length s1 + String.length s2)%nat.
Proof. induction s1 as [|c s1 IH]; simpl; [reflexivity|]. rewrite IH. reflexivity. Qed.

Section BareNumber.
Variable ds : string.
Hypothesis Hds : digit_string ds.
Hypothesis Hbig : decimal_value ds * 1048576 <= INT64_MAX.

Lemma bare_nonneg : 0 <= decimal_value ds.
Proof. apply decimal_nonneg; [apply Hds|lia]. Qed.

Lemma bare_max : decimal_value ds <= INT64_MAX.
Proof. pose proof bare_nonneg. unfold INT64_MAX in *. lia. Qed.

Lemma bare_strtoll : strtoll ds = Some (decimal_value ds, EmptyString, false).
Proof.
  rewrite <- (string_app_nil_r ds) at 1. apply strtoll_digits;
    [exact Hds|intros c r H; discriminate H|exact bare_max].
Qed.

Lemma bare_strtoll_mb : strtoll (ds ++ "MB") = Some (decimal_value ds, "MB"%string, false).
Proof.
  apply strtoll_digits; [exact Hds|intros c r H; injection H as <- _; reflexivity|exact bare_max].
Qed.

Lemma bare_trim : qos_trim_whitespace ds = ds.
Proof. apply trim_nospace, digits_nospace, Hds. Qed.

Lemma bare_trim_mb : qos_trim_whitespace (ds ++ "MB") = (ds ++ "MB")%string.
Proof.
  apply trim_nospace. rewrite list_ascii_of_string_app. apply Forall_app. split.
  - apply digits_nospace, Hds.
  - repeat constructor.
Qed.

Lemma bare_not_empty : String.eqb ds EmptyString = false.
Proof. apply String.eqb_neq, Hds. Qed.

Lemma bare_parse : qos_parse_memory_value ds = Some (decimal_value ds).
Proof.
  pose proof bare_nonneg.
  unfold qos_parse_memory_value. rewrite bare_not_empty, bare_strtoll. simpl.
  replace ((decimal_value ds =? -1) && false) with false by (rewrite andb_false_r; reflexivity).
  replace (decimal_value ds <? -1) with false by (symmetry; apply Z.ltb_ge; lia).
  replace ((decimal_value ds >? 0) && (1 >? 1)) with false by (rewrite andb_false_r; reflexivity).
  rewrite Z.mul_1_r. reflexivity.
Qed.

Lemma bare_parse_mb : qos_parse_memory_value (ds ++ "MB") = Some (decimal_value ds * (1024 * 1024)).
Proof.
  pose proof bare_nonneg.
  unfold qos_parse_memory_value.
  replace (String.eqb (ds ++ "MB") EmptyString) with false
    by (symmetry; apply String.eqb_neq; destruct ds; discriminate).
  rewrite bare_strtoll_mb. simpl.
  replace ((decimal_value ds =? -1) && true) with false
    by (rewrite andb_true_r; symmetry; apply Z.eqb_neq; lia).
  replace (decimal_value ds <? -1) with false by (symmetry; apply Z.ltb_ge; lia).
  replace ((decimal_value ds >? 0) && (1024 * 1024 >? 1)
           && (decimal_value ds >? INT64_MAX / (1024 * 1024))) with false.
  - reflexivity.
  - symmetry. apply andb_false_iff. right. rewrite Z.gtb_ltb. apply Z.ltb_ge.
    apply Z.div_le_lower_bound; lia.
Qed.

Lemma bare_normalize : qos_normalize_work_mem_value ds = Some (ds ++ "MB")%string.
Proof.
  destruct Hds as [Hne Hd]. destruct ds as [|c ds']; [congruence|].
  assert (Hc : isdigit c = true) by (simpl in Hd; apply andb_prop in Hd; apply Hd).
  unfold qos_normalize_work_mem_value. cbv zeta.
  replace (skip_space (String c ds')) with (String c ds')
    by (simpl; rewrite (digit_not_space c Hc); reflexivity).
  pose proof (span_app_digits (String c ds') "" Hd ltac:(intros ? ? H; discriminate H)) as Hs.
  rewrite string_app_nil_r in Hs. rewrite Hs. reflexivity.
Qed.

Lemma bare_mb_differs : String.eqb (ds ++ "MB") ds = false.
Proof.
  apply String.eqb_neq. intros H. apply (f_equal String.length) in H.
  rewrite string_length_app in H. simpl in H. lia.
Qed.

End BareNumber.

Lemma skip_space_head s :
  match list_ascii_of_string (skip_space s) with c :: _ => isspace c = false | [] => True end.
Proof.
  induction s as [|c s IH]; simpl; [exact I|].
  destruct (isspace c) eqn:E; [exact IH|simpl; exact E].
Qed.

Lemma skip_space_id s :
  match list_ascii_of_string s with c :: _ => isspace c = false | [] => True end ->
  skip_space s = s.
Proof. destruct s as [|c s]; simpl; [reflexivity|]. intros H. rewrite H. reflexivity. Qed.

Lemma drop_trailing_suffix l : exists p, l = p ++ drop_trailing_space_rev l.
Proof.
  induction l as [|c l [p IH]]; simpl; [exists []; reflexivity|].
  destruct (isspace c); [exists (c :: p); simpl; rewrite <- IH; reflexivity|exists []; reflexivity].
Qed.

Lemma drop_trailing_head l :
  match drop_trailing_space_rev l with c :: _ => isspace c = false | [] => True end.
Proof.
  induction l as [|c l IH]; simpl; [exact I|].
  destruct (isspace c) eqn:E; [exact IH|simpl; exact E].
Qed.

Lemma drop_trailing_head_id l :
  match l with c :: _ => isspace c = false | [] => True end -> drop_trailing_space_rev l = l.
Proof. destruct l as [|c l]; simpl; [reflexivity|]. intros H. rewrite H. reflexivity. Qed.

Section Flags.
Variable pidof : nat -> Z.
Variable uid : nat -> Z.
Variable dbid : nat -> Z.
Variable lim : Z -> Z -> QoSLimits.

Lemma flags_invariant n w :
  reachable pidof uid dbid lim n w -> flags_ok (backend_status (shm w)) (locals w).
Proof.
  induction 1 as [|w o Hr IH Hb].
  - intros b s Hl. apply lookup_repeat_eq in Hl. subst s.
    split; simpl; [congruence|discriminate].
  - destruct (reachable_invariant pidof uid dbid lim n w Hr) as [Hok _].
    set (l := backend_status (shm w)) in *.
    assert (Hlen : (op_backend o < length l)%nat) by (destruct Hok as [-> _]; exact Hb).
    assert (Hold : forall b, (b < length l)%nat -> slot_flags_ok (slot_of l b) (locals w b))
      by (intros b Hb'; apply IH; apply slot_of_lookup; exact Hb').
    destruct o as [b en op|b en|b en|b en]; simpl in Hb, Hlen; cbn [run_op].
    + unfold qos_track_statement_start.
      destruct (negb en || statement_tracked (locals w b)); [apply flags_same; exact IH|].
      destruct (stmt_limit (lim (uid b) (dbid b)) op) as [lv|] eqn:El;
        [|apply flags_same; exact IH].
      cbn [proc_of my_slot my_pid my_user my_db].
      destruct (_ && _); [apply flags_same; exact IH|].
      cbn [after_admit shm locals backend_status]. fold l.
      apply flags_insert; [exact IH|exact Hlen|].
      split; [reflexivity|]. simpl. apply (Hold b Hlen).
    + unfold qos_track_statement_end.
      destruct (negb en || negb (statement_tracked (locals w b))) eqn:E0;
        [apply flags_same; exact IH|].
      cbn [proc_of my_slot my_pid my_user my_db].
      destruct (pid (slot_of (backend_status (shm w)) b) =? pidof b) eqn:Ep;
        cbn [shm locals backend_status]; fold l.
      * apply flags_insert; [exact IH|exact Hlen|].
        split; [simpl; congruence|]. simpl. apply (Hold b Hlen).
      * apply flags_upd with (slots := l); [exact IH|reflexivity|].
        intros s Hs. rewrite (slot_of_lookup l b Hlen) in Hs. injection Hs as <-.
        destruct (slot_of_ok pidof uid dbid n l b Hok Hb) as [He|(Hp & _)].
        -- rewrite He. split; simpl; [congruence|discriminate].
        -- fold l in Ep. rewrite Hp, Z.eqb_refl in Ep. discriminate.
    + unfold qos_track_transaction_start.
      destruct (negb en || transaction_tracked (locals w b)); [apply flags_same; exact IH|].
      destruct (negb (max_concurrent_tx (lim (uid b) (dbid b)) >? 0));
        [apply flags_same; exact IH|].
      cbn [proc_of my_slot my_pid my_user my_db].
      destruct (_ >=? _); [apply flags_same; exact IH|].
      cbn [after_admit shm locals backend_status]. fold l.
      apply flags_insert; [exact IH|exact Hlen|].
      split; [|reflexivity]. simpl. apply (Hold b Hlen).
    + unfold qos_track_transaction_end.
      destruct (negb en || negb (transaction_tracked (locals w b))) eqn:E0;
        [apply flags_same; exact IH|].
      cbn [proc_of my_slot my_pid my_user my_db].
      destruct (pid (slot_of (backend_status (shm w)) b) =? pidof b) eqn:Ep;
        cbn [shm locals backend_status]; fold l.
      * apply flags_insert; [exact IH|exact Hlen|].
        split; [|simpl; discriminate]. simpl. apply (Hold b Hlen).
      * apply flags_upd with (slots := l); [exact IH|reflexivity|].
        intros s Hs. rewrite (slot_of_lookup l b Hlen) in Hs. injection Hs as <-.
        destruct (slot_of_ok pidof uid dbid n l b Hok Hb) as [He|(Hp & _)].
        -- rewrite He. split; simpl; [congruence|discriminate].
        -- fold l in Ep. rewrite Hp, Z.eqb_refl in Ep. discriminate.
Qed.

End Flags.

End ExtraFacts.

(* ===================================================================== *)
(** ** Lemmas on the CPU affinity table *)
(* ===================================================================== *)

Module AffinityFacts.
Import Limits Parse Resource Affinity ExtraDefs.

Lemma lookup_In_list {A} (l : list A) i x : l !! i = Some x -> In x l.
Proof.
  revert i. induction l as [|y l IH]; intros [|i] H; simpl in H; try discriminate.
  - injection H as <-. left. reflexivity.
  - right. eapply IH. exact H.
Qed.

Lemma In_lookup_list {A} (l : list A) x : In x l -> exists i, l !! i = Some x.
Proof.
  induction l as [|y l IH]; intros H; [destruct H|].
  destruct H as [<-|H]; [exists O; reflexivity|].
  destruct (IH H) as [i Hi]. exists (S i). exact Hi.
Qed.

Lemma find_none_intro {A} (f : A -> bool) l :
  (forall x, In x l -> f x = false) -> List.find f l = None.
Proof.
  induction l as [|y l IH]; intros H; simpl; [reflexivity|].
  rewrite (H y (or_introl eq_refl)). apply IH. intros x Hx. apply H. right. exact Hx.
Qed.

Lemma insert_find_none {A} (f : A -> bool) l k w :
  (k < length l)%nat ->
  (forall i x, i <> k -> l !! i = Some x -> f x = false) -> f w = false ->
  List.find f (<[k := w]> l) = None.
Proof.
  intros Hk H Hw. apply find_none_intro. intros x Hx.
  apply In_lookup_list in Hx as [i Hi]. rewrite list_lookup_insert in Hi.
  destruct (decide (k = i /\ (k < length l)%nat)) as [_|Hn].
  - injection Hi as <-. exact Hw.
  - apply (H i); [intros ->; apply Hn; split; [reflexivity|exact Hk]|exact Hi].
Qed.

Lemma lookup_nth_lt (l : list Z) k : (k < length l)%nat -> l !! k = Some (nth k l 0).
Proof.
  revert k. induction l as [|y l IH]; intros [|k] H; simpl in *; try lia; [reflexivity|].
  apply IH. lia.
Qed.

Lemma swap_lookup (l : list Z) i j k :
  (i < length l)%nat -> (j < length l)%nat ->
  (<[j := nth i l 0]> (<[i := nth j l 0]> l)) !! k =
  l !! (if decide (k = j) then i else if decide (k = i) then j else k).
Proof.
  intros Hi Hj. rewrite !list_lookup_insert, length_insert.
  repeat destruct (decide _); subst; try lia; try (symmetry; apply lookup_nth_lt; lia);
    reflexivity.
Qed.

Lemma swap_inv (l : list Z) i j total :
  (i < length l)%nat -> (j < length l)%nat ->
  length l = total -> NoDup l -> Forall (fun c => 0 <= c < Z.of_nat total) l ->
  let l' := <[j := nth i l 0]> (<[i := nth j l 0]> l) in
  length l' = total /\ NoDup l' /\ Forall (fun c => 0 <= c < Z.of_nat total) l'.
Proof.
  intros Hi Hj Hl Hnd Hf l'. split; [unfold l'; rewrite !length_insert; exact Hl|split].
  - apply NoDup_alt. intros a b x Ha Hb. unfold l' in Ha, Hb.
    rewrite swap_lookup in Ha, Hb by assumption.
    pose proof (proj1 (NoDup_alt l) Hnd _ _ _ Ha Hb) as E.
    repeat destruct (decide _); lia.
  - apply Forall_lookup_2. intros k x Hk. unfold l' in Hk. rewrite swap_lookup in Hk by assumption.
    rewrite Forall_lookup in Hf. exact (Hf _ _ Hk).
Qed.

Lemma min_scan_bound c s cnt : forall m j,
  min_scan c s m j cnt = m \/ (j <= min_scan c s m j cnt < j + cnt)%nat.
Proof.
  induction cnt as [|cnt IH]; intros m j; simpl; [left; reflexivity|].
  match goal with |- context [min_scan c s ?m' (S j) cnt] =>
    destruct (IH m' (S j)) as [E|E]; [rewrite E|right; lia] end.
  repeat match goal with |- context [if ?b then _ else _] => destruct b end;
    (left; reflexivity) || (right; lia).
Qed.

Lemma selection_pass_inv c total count : forall i l,
  (i + count <= total)%nat -> length l = total -> NoDup l ->
  Forall (fun x => 0 <= x < Z.of_nat total) l ->
  let l' := selection_pass c total i count l in
  length l' = total /\ NoDup l' /\ Forall (fun x => 0 <= x < Z.of_nat total) l'.
Proof.
  induction count as [|count IH]; intros i l Hc Hl Hnd Hf; simpl; [auto|].
  set (m := min_scan c l i (S i) (total - S i)).
  assert (Hm : (m < total)%nat)
    by (destruct (min_scan_bound c l (total - S i) i (S i)) as [E|E]; unfold m; lia).
  destruct (Nat.eqb_spec m i) as [_|Hne].
  - apply IH; [lia|assumption..].
  - destruct (swap_inv l i m total ltac:(lia) ltac:(lia) Hl Hnd Hf) as (H1 & H2 & H3).
    apply IH; [lia|exact H1|exact H2|exact H3].
Qed.

Lemma sorted_indices_inv total :
  let l := map Z.of_nat (seq 0 total) in
  length l = total /\ NoDup l /\ Forall (fun x => 0 <= x < Z.of_nat total) l.
Proof.
  split; [rewrite length_map, length_seq; reflexivity|split].
  - apply NoDup_ListNoDup, NoDup_map_NoDup_ForallPairs; [intros a b _ _; lia|apply seq_NoDup].
  - apply Forall_forall. intros x Hx. apply list_elem_of_In, in_map_iff in Hx as (n & <- & Hn).
    apply in_seq in Hn. lia.
Qed.

Lemma wrap32_small x : 0 <= x <= INT_MAX -> wrap32 x = x.
Proof.
  intros H. unfold wrap32, INT_MAX in *. rewrite Z.mod_small; [lia|].
  change (2 ^ 31) with 2147483648. change (2 ^ 32) with 4294967296. lia.
Qed.

Lemma rem_two_range x t : 0 < t -> 0 <= x < 2 * t ->
  (x < t /\ Z.rem x t = x) \/ (t <= x /\ Z.rem x t = x - t).
Proof.
  intros Ht Hx. rewrite Z.rem_mod_nonneg by lia.
  destruct (Z_lt_le_dec x t).
  - left. split; [lia|]. apply Z.mod_small. lia.
  - right. split; [lia|]. rewrite <- (Z.mod_small (x - t) t) by lia.
    replace x with ((x - t) + 1 * t) at 1 by lia. apply Z.mod_add. lia.
Qed.

Lemma scan_entries_none db role entries : forall i es r,
  scan_entries db role i entries es = (None, r) ->
  List.find (key_is db role) entries = None /\
  (r = es \/ i <= r < i + Z.of_nat (length entries)).
Proof.
  induction entries as [|e rest IH]; intros i es r H; simpl in H.
  - injection H as <-. split; [reflexivity|left; reflexivity].
  - simpl. destruct (key_is db role e); [discriminate|].
    destruct (IH _ _ _ H) as [F [E|R]]; split; try exact F.
    + destruct ((es =? -1) && (database_oid e =? InvalidOid)); [right; lia|left; exact E].
    + right. lia.
Qed.

Lemma key_is_eq db role e : database_oid e = db -> role_oid e = role -> key_is db role e = true.
Proof. intros <- <-. unfold key_is. rewrite !Z.eqb_refl. reflexivity. Qed.

Lemma key_is_write_ne db role db' role' n a old :
  db <> db' \/ role <> role' -> key_is db' role' (write_entry db role n a old) = false.
Proof.
  intros H. unfold key_is, write_entry. simpl.
  destruct H as [H|H]; [rewrite (proj2 (Z.eqb_neq db db') H); reflexivity|].
  rewrite (proj2 (Z.eqb_neq role role') H), andb_false_r. reflexivity.
Qed.

Lemma insert_keys_unique l k w :
  affinity_keys_unique l ->
  (forall x, In x l -> key_is (database_oid w) (role_oid w) x = false) ->
  affinity_keys_unique (<[k := w]> l).
Proof.
  intros Hu Hw i j e1 e2 H1 H2 Hne Hd Hro.
  rewrite list_lookup_insert in H1, H2.
  destruct (decide (k = i /\ (k < length l)%nat)) as [[E1 _]|n1];
  destruct (decide (k = j /\ (k < length l)%nat)) as [[E2 _]|n2].
  - lia.
  - injection H1 as <-. apply lookup_In_list in H2.
    pose proof (Hw e2 H2) as C. rewrite key_is_eq in C; [discriminate|congruence|congruence].
  - injection H2 as <-. apply lookup_In_list in H1.
    pose proof (Hw e1 H1) as C. rewrite key_is_eq in C; [discriminate|congruence|congruence].
  - exact (Hu i j e1 e2 H1 H2 Hne Hd Hro).
Qed.

Lemma append_keys_unique e0 rest w :
  affinity_keys_unique (e0 :: rest) ->
  (forall x, In x rest -> key_is (database_oid w) (role_oid w) x = false) ->
  affinity_keys_unique (rest ++ [w]).
Proof.
  intros Hu Hw i j e1 e2 H1 H2 Hne Hd Hro.
  destruct (decide (i < length rest)%nat) as [Hi|Hi];
    [rewrite lookup_app_l in H1 by lia
    |rewrite lookup_app_r in H1 by lia; apply list_lookup_singleton_Some in H1 as [Hi0 <-]];
  (destruct (decide (j < length rest)%nat) as [Hj|Hj];
    [rewrite lookup_app_l in H2 by lia
    |rewrite lookup_app_r in H2 by lia; apply list_lookup_singleton_Some in H2 as [Hj0 <-]]).
  - assert (S i = S j) by exact (Hu (S i) (S j) e1 e2 H1 H2 Hne Hd Hro). lia.
  - apply lookup_In_list in H1.
    pose proof (Hw e1 H1) as C. rewrite key_is_eq in C; [discriminate|congruence|congruence].
  - apply lookup_In_list in H2.
    pose proof (Hw e2 H2) as C. rewrite key_is_eq in C; [discriminate|congruence|congruence].
  - lia.
Qed.

Lemma scan_entries_find db role l : forall i es,
  fst (scan_entries db role i l es) = List.find (key_is db role) l.
Proof.
  induction l as [|e l IH]; intros i es; simpl; [reflexivity|].
  destruct (key_is db role e); [reflexivity|apply IH].
Qed.

Lemma find_insert_first {A} (f : A -> bool) l k w :
  (forall x, In x l -> f x = false) -> f w = true -> (k < length l)%nat ->
  List.find f (<[k := w]> l) = Some w.
Proof.
  revert k. induction l as [|y l IH]; intros k Hl Hw Hk; simpl in Hk; [lia|].
  destruct k as [|k]; simpl; [rewrite Hw; reflexivity|].
  rewrite (Hl y (or_introl eq_refl)). apply IH; [intros x Hx; apply Hl; right; exact Hx|exact Hw|lia].
Qed.

Lemma find_app_last {A} (f : A -> bool) l w :
  (forall x, In x l -> f x = false) -> f w = true -> List.find f (l ++ [w]) = Some w.
Proof.
  induction l as [|y l IH]; intros Hl Hw; simpl; [rewrite Hw; reflexivity|].
  rewrite (Hl y (or_introl eq_refl)). apply IH; [intros x Hx; apply Hl; right; exact Hx|exact Hw].
Qed.

Lemma In_take_drop {A} (l : list A) n m x : In x (take n (drop m l)) -> In x l.
Proof.
  intros H. rewrite <- (take_drop m l). apply in_or_app. right.
  rewrite <- (take_drop n (drop m l)). apply in_or_app. left. exact H.
Qed.

Lemma copy_cores_length_ge k src dst :
  (k <= length src)%nat -> (k <= length (copy_cores k src dst))%nat.
Proof. intros H. unfold copy_cores. rewrite length_app, length_take. lia. Qed.

Lemma copy_cores_take k src dst :
  (k <= length src)%nat -> take k (copy_cores k src dst) = take k src.
Proof.
  intros H. unfold copy_cores. rewrite take_app, length_take.
  replace (k - Nat.min k (length src))%nat with O by lia.
  rewrite take_0, app_nil_r, take_take, Nat.min_id. reflexivity.
Qed.

Lemma selection_pass_length c total count : forall i l,
  length (selection_pass c total i count l) = length l.
Proof.
  induction count as [|count IH]; intros i l; simpl; [reflexivity|].
  rewrite IH. destruct (_ =? i)%nat; [reflexivity|]. rewrite !length_insert. reflexivity.
Qed.

Lemma select_shape r total measure nx :
  let '(n, sel, _) := qos_select_least_busy_cores r total measure nx in
  length sel = Z.to_nat n /\ (n = 0 \/ (0 < r /\ 0 < total /\ n = Z.min r total)).
Proof.
  unfold qos_select_least_busy_cores.
  destruct ((r <=? 0) || (total <=? 0)) eqn:E; [split; [reflexivity|left; reflexivity]|].
  apply orb_false_iff in E as [E1 E2]. apply Z.leb_gt in E1, E2.
  assert (Hreq : (if r >? total then total else r) = Z.min r total)
    by (destruct (Z.gtb_spec r total); lia).
  rewrite Hreq. cbv zeta.
  destruct (Nat.eqb _ 0).
  - destruct nx; (split; [rewrite length_map, length_seq; reflexivity|right; lia]).
  - split; [|right; lia].
    rewrite length_take, selection_pass_length, length_map, length_seq. lia.
Qed.

End AffinityFacts.


(* ===================================================================== *)
(** ** Further properties *)
(* ===================================================================== *)

Module Extras.
Import Limits Err Parse Catalog Admission Cluster Nodes Resource
  CacheCallbacks Hooks Affinity ExtraDefs AdmissionFacts AdmissionBound ExtraFacts
  AffinityFacts.

(** X1: once [qos_refresh_cached_limits] has run, a second call with the
    same settings epoch, user and database is a cache hit: it reads no
    catalog and keeps the cache as it is, whatever the catalog now holds;
    so [qos_get_cached_limits] returns the same limits. *)
Theorem refresh_cache_hit shm_epoch uid dbid cat cat' c :
  let (c1, _) := qos_refresh_cached_limits shm_epoch uid dbid cat c in
  qos_refresh_cached_limits shm_epoch uid dbid cat' c1 = (c1, false) /\
  qos_get_cached_limits shm_epoch uid dbid cat' c1 = (cached_limits c1, c1).
Proof.
  pose proof (refresh_after c shm_epoch uid dbid cat) as H.
  destruct (qos_refresh_cached_limits shm_epoch uid dbid cat c) as [c1 r].
  destruct H as (Hl & Hu & Hd & He).
  assert (Hr : qos_refresh_cached_limits shm_epoch uid dbid cat' c1 = (c1, false)).
  { unfold qos_refresh_cached_limits.
    destruct shm_epoch as [e|].
    - rewrite (He e eq_refl), Z.eqb_refl; simpl.
      rewrite Hl, Hu, Hd, !Z.eqb_refl; reflexivity.
    - rewrite Hl, Hu, Hd, !Z.eqb_refl; reflexivity. }
  split; [exact Hr|].
  unfold qos_get_cached_limits; rewrite Hr; reflexivity.
Qed.

(** X2: after the relcache callback, [qos_invalidate_cache], or the
    syscache callback for [DATABASEOID] or [AUTHOID], the next refresh
    reads the catalog and the seven numeric limits become the
    most-restrictive combination of what it reads; a syscache callback
    for any other cache leaves the session cache untouched. *)
Theorem invalidation_forces_read relid shm_epoch uid dbid cat c :
  Forall (fun inv : SessionCache -> SessionCache =>
            let (c', read) := qos_refresh_cached_limits shm_epoch uid dbid cat (inv c) in
            read = true /\
            Forall (fun f => f (cached_limits c')
                             = calc_limit (f (role_limits_of cat uid)) (f (db_limits_of cat dbid)))
                   limit_fields)
    [qos_relcache_callback relid; qos_invalidate_cache;
     qos_invalidate_cache_callback DATABASEOID; qos_invalidate_cache_callback AUTHOID] /\
  (forall id, qos_invalidate_cache_callback (OtherSysCache id) c = c).
Proof.
  split; [|reflexivity].
  assert (K : let (c', read) := qos_refresh_cached_limits shm_epoch uid dbid cat
                                  (clear_limits_cached c) in
              read = true /\
              Forall (fun f => f (cached_limits c')
                               = calc_limit (f (role_limits_of cat uid)) (f (db_limits_of cat dbid)))
                     limit_fields).
  { rewrite refresh_cleared; split; [reflexivity|].
    repeat constructor. }
  repeat constructor; exact K.
Qed.

(** X3: the refresh keeps the cached limits within the ranges of their C
    types when the cache and the two limits it reads are within them. *)
Theorem refresh_keeps_range shm_epoch uid dbid cat c :
  limits_in_range (cached_limits c) ->
  limits_in_range (role_limits_of cat uid) ->
  limits_in_range (db_limits_of cat dbid) ->
  limits_in_range (cached_limits (fst (qos_refresh_cached_limits shm_epoch uid dbid cat c))).
Proof.
  intros Hc Hr Hd.
  unfold qos_refresh_cached_limits.
  set (c1 := match shm_epoch with
             | Some e => if negb (last_seen_epoch c =? e)
                         then mkCache (cached_limits c) (cached_user_id c) (cached_db_id c) false e
                         else c
             | None => c end).
  assert (Hc1 : cached_limits c1 = cached_limits c).
  { subst c1; destruct shm_epoch; [destruct (negb _)|]; reflexivity. }
  destruct (limits_cached c1 && (cached_user_id c1 =? uid) && (cached_db_id c1 =? dbid));
    simpl; rewrite ?Hc1; [exact Hc|].
  unfold limits_in_range in *; simpl.
  destruct Hr as (R1 & R2 & R3 & R4 & R5 & R6 & R7 & R8).
  destruct Hd as (D1 & D2 & D3 & D4 & D5 & D6 & D7 & D8).
  destruct Hc as (_ & _ & _ & _ & _ & _ & _ & C8).
  refine (conj (calc_limit_range _ _ _ R1 D1) (conj (calc_limit_range _ _ _ R2 D2)
    (conj (calc_limit_range _ _ _ R3 D3) (conj (calc_limit_range _ _ _ R4 D4)
    (conj (calc_limit_range _ _ _ R5 D5) (conj (calc_limit_range _ _ _ R6 D6)
    (conj (calc_limit_range _ _ _ R7 D7) _))))))).
  exact C8.
Qed.

Lemma refresh_keeps_range_witness :
  let cat := mkView (fun _ => mkLimits 100 4 (-1) 2 (-1) (-1) 0 1)
                    (fun _ => mkLimits 50 (-1) 3 (-1) (-1) 7 (-1) (-1)) in
  limits_in_range (cached_limits (fst (qos_refresh_cached_limits (Some 1) 10 20 cat cache_init))).
Proof.
  intros cat.
  apply refresh_keeps_range;
    unfold limits_in_range, INT64_MAX, INT_MAX; simpl; repeat split; lia.
Defined.

(** X4: the enforcement at planning and utility time ([stmt = NULL]) is
    done at most once per settings epoch: calling it again on the state it
    returned changes nothing. *)
Theorem null_enforcement_once en limits shm_epoch st st' :
  qos_enforce_work_mem_limit en limits shm_epoch None st = WmDone st' ->
  qos_enforce_work_mem_limit en limits shm_epoch None st' = WmDone st'.
Proof.
  unfold qos_enforce_work_mem_limit.
  destruct (negb en) eqn:En; [congruence|].
  destruct (work_mem_limit limits <? 0) eqn:El; [congruence|].
  destruct shm_epoch as [e|].
  - destruct (e =? work_mem_last_epoch st) eqn:Ee.
    + destruct (work_mem_enforced st) eqn:Ef.
      * intros H; injection H as <-. rewrite Ee, Ef; reflexivity.
      * simpl. destruct (guc_work_mem st * 1024 >? work_mem_limit limits);
          intros H; injection H as <-; simpl; rewrite Ee; reflexivity.
    + simpl. destruct (guc_work_mem st * 1024 >? work_mem_limit limits);
        intros H; injection H as <-; simpl; rewrite Z.eqb_refl; reflexivity.
  - destruct (work_mem_enforced st) eqn:Ef.
    + intros H; injection H as <-; rewrite Ef; reflexivity.
    + simpl. destruct (guc_work_mem st * 1024 >? work_mem_limit limits);
        intros H; injection H as <-; reflexivity.
Qed.

Lemma null_enforcement_once_witness :
  qos_enforce_work_mem_limit true (mkLimits (8 * 1024 * 1024) (-1) (-1) (-1) (-1) (-1) (-1) 0)
    (Some 3) None (mkWm 65536 false 2 0) = WmDone (mkWm 8192 true 3 1) /\
  qos_enforce_work_mem_limit true (mkLimits (8 * 1024 * 1024) (-1) (-1) (-1) (-1) (-1) (-1) 0)
    (Some 3) None (mkWm 8192 true 3 1) = WmDone (mkWm 8192 true 3 1).
Proof.
  split; [vm_compute; reflexivity|].
  apply (null_enforcement_once true
           (mkLimits (8 * 1024 * 1024) (-1) (-1) (-1) (-1) (-1) (-1) 0) (Some 3)
           (mkWm 65536 false 2 0)).
  vm_compute; reflexivity.
Defined.

(** X5: when the session has not yet been checked in the current
    epoch, the check lowers the [work_mem] setting (in kB) so that it no
    longer exceeds the byte limit, provided the limit fits an [int] once
    divided by 1024. *)
Theorem null_enforcement_caps en limits shm_epoch st :
  en = true -> 0 <= work_mem_limit limits -> work_mem_limit limits / 1024 <= INT_MAX ->
  (work_mem_enforced st = false \/
   exists e, shm_epoch = Some e /\ e <> work_mem_last_epoch st) ->
  exists st', qos_enforce_work_mem_limit en limits shm_epoch None st = WmDone st' /\
              work_mem_enforced st' = true /\
              guc_work_mem st' * 1024 <= work_mem_limit limits.
Proof.
  intros -> H0 Hmax Hnot.
  unfold qos_enforce_work_mem_limit; simpl.
  assert (Hl : (work_mem_limit limits <? 0) = false) by (apply Z.ltb_ge; lia).
  rewrite Hl.
  set (L := work_mem_limit limits) in *.
  assert (Hq : Z.quot L 1024 = L / 1024) by (apply Z.quot_div_nonneg; lia).
  assert (Hw : wrap32 (Z.quot L 1024) = L / 1024).
  { rewrite Hq; unfold wrap32, INT_MAX in *.
    assert (0 <= L / 1024) by (apply Z.div_pos; lia).
    rewrite Z.mod_small by lia. lia. }
  assert (Hm : L / 1024 * 1024 <= L).
  { rewrite Z.mul_comm. apply Z.mul_div_le. lia. }
  set (st1 := match shm_epoch with
              | Some e => if e =? work_mem_last_epoch st then st
                          else mkWm (guc_work_mem st) false e (work_mem_violations st)
              | None => st end).
  assert (Hf : work_mem_enforced st1 = false).
  { subst st1. destruct Hnot as [Hf | (e & -> & He)].
    - destruct shm_epoch as [e|]; [destruct (e =? work_mem_last_epoch st)|]; auto.
    - apply Z.eqb_neq in He; rewrite He; reflexivity. }
  rewrite Hf; simpl.
  destruct (guc_work_mem st1 * 1024 >? L) eqn:Eg.
  - eexists; split; [reflexivity|].
    destruct shm_epoch; simpl; rewrite Hw; split; auto.
  - eexists; split; [reflexivity|]. simpl. split; [reflexivity|]. lia.
Qed.

Lemma null_enforcement_caps_witness :
  exists st', qos_enforce_work_mem_limit true
                (mkLimits (4 * 1024 * 1024) (-1) (-1) (-1) (-1) (-1) (-1) 0) (Some 1) None
                (mkWm 65536 true 0 0) = WmDone st' /\
              work_mem_enforced st' = true /\ guc_work_mem st' * 1024 <= 4 * 1024 * 1024.
Proof.
  apply (null_enforcement_caps true (mkLimits (4 * 1024 * 1024) (-1) (-1) (-1) (-1) (-1) (-1) 0)
           (Some 1) (mkWm 65536 true 0 0)).
  - reflexivity.
  - simpl; lia.
  - apply Z.leb_le; reflexivity.
  - right; exists 1; split; [reflexivity|]; simpl; lia.
Defined.

(** X6: capping the parallel workers twice is capping them once at the
    smaller bound. *)
Theorem adjust_parallel_workers_compose p a b :
  qos_adjust_parallel_workers (qos_adjust_parallel_workers p a) b
  = qos_adjust_parallel_workers p (Z.min a b).
Proof.
  induction p as [|tag nw l IHl r IHr]; simpl; [reflexivity|].
  rewrite IHl, IHr. destruct tag; rewrite ?adjust_min; reflexivity.
Qed.

(** X7: [qos_ExecutorStart] calls [qos_get_cached_limits()] again, so it
    may see limits [le] other than the limits [lp] the planner saw (a
    settings epoch bump in between).  After [qos_planner] admitted a
    statement (tracking not suppressed), the executor's tracking changes
    nothing on the state the planner left (1) whatever [le] is, when the
    planner left the transaction tracked and the statement tracked or of
    an untracked kind, and (2) whatever the flags are, when [le = lp]. *)
Theorem planner_then_executor_start en me lp le op sh loc sh' loc' :
  qos_planner_tracking en false me lp op sh loc = Proceed sh' loc' ->
  (transaction_tracked loc' = true ->
   statement_tracked loc' = true \/ stmt_limit le op = None ->
   qos_ExecutorStart_tracking en me le op sh' loc' = Proceed sh' loc') /\
  (le = lp -> qos_ExecutorStart_tracking en me le op sh' loc' = Proceed sh' loc').
Proof.
  intros H. split.
  - intros Ht Hs. unfold qos_ExecutorStart_tracking, track_transaction_and_statement.
    rewrite (tx_start_tracked en me le sh' loc' Ht).
    destruct Hs as [Hs|Hs].
    + destruct op; try reflexivity; exact (stmt_start_tracked _ _ _ _ _ _ Hs).
    + destruct op; try reflexivity; discriminate Hs.
  - intros ->. revert H.
    unfold qos_planner_tracking, qos_ExecutorStart_tracking. simpl.
    destruct en; simpl.
    + apply track_both_fixed.
    + intros H; injection H as <- <-. unfold track_transaction_and_statement.
      unfold qos_track_transaction_start; simpl.
      destruct op; try reflexivity; unfold qos_track_statement_start; reflexivity.
Qed.

Lemma planner_then_executor_start_witness :
  let me := mkProc 0 100 10 20 in
  let lp := mkLimits (-1) (-1) 1 1 (-1) (-1) (-1) 0 in
  let le := mkLimits (-1) (-1) 0 0 (-1) (-1) (-1) 0 in
  let sh := mkShared stats_zero [empty_slot; mkStatus 101 10 20 CMD_UNKNOWN false] in
  let sh' := mkShared stats_zero [mkStatus 100 10 20 CMD_SELECT true;
                                  mkStatus 101 10 20 CMD_UNKNOWN false] in
  let loc' := mkLocal CMD_SELECT true true in
  qos_planner_tracking true false me lp CMD_SELECT sh local_init = Proceed sh' loc' /\
  qos_ExecutorStart_tracking true me le CMD_SELECT sh' loc' = Proceed sh' loc'.
Proof.
  intros me lp le sh sh' loc'.
  assert (Hp : qos_planner_tracking true false me lp CMD_SELECT sh local_init
               = Proceed sh' loc') by (vm_compute; reflexivity).
  assert (Ht : transaction_tracked loc' = true) by reflexivity.
  assert (Hs : statement_tracked loc' = true) by reflexivity.
  split; [exact Hp|].
  exact (proj1 (planner_then_executor_start true me lp le CMD_SELECT sh local_init sh' loc' Hp)
               Ht (or_introl Hs)).
Defined.

(** The limit of (1) cannot be dropped: a transaction the planner left
    untracked ([max_concurrent_tx = -1] at planning) is registered by
    [qos_ExecutorStart] once the limits it reads set [max_concurrent_tx]. *)
Example executor_start_after_limits_change :
  let me := mkProc 0 100 10 20 in
  let lp := mkLimits (-1) (-1) (-1) (-1) (-1) (-1) (-1) 0 in
  let le := mkLimits (-1) (-1) 1 (-1) (-1) (-1) (-1) 0 in
  let sh := mkShared stats_zero [empty_slot; mkStatus 101 10 20 CMD_UNKNOWN false] in
  let sh' := mkShared stats_zero [mkStatus 100 10 20 CMD_SELECT false;
                                  mkStatus 101 10 20 CMD_UNKNOWN false] in
  let loc' := mkLocal CMD_SELECT true false in
  qos_planner_tracking true false me lp CMD_SELECT sh local_init = Proceed sh' loc' /\
  qos_ExecutorStart_tracking true me le CMD_SELECT sh' loc'
    = Proceed (mkShared stats_zero [mkStatus 100 10 20 CMD_SELECT true;
                                    mkStatus 101 10 20 CMD_UNKNOWN false])
              (mkLocal CMD_SELECT true true).
Proof. vm_compute. split; reflexivity. Qed.

(** X8: in every state reachable by admission calls, a slot registered
    for a statement kind or a transaction belongs to a backend whose
    session-local flags say it is tracking that statement or
    transaction, so its end calls will clear it. *)
Theorem registered_slot_is_tracked pidof uid dbid lim n w :
  reachable pidof uid dbid lim n w ->
  forall b s, backend_status (shm w) !! b = Some s ->
  (cmd_type s <> CMD_UNKNOWN -> statement_tracked (locals w b) = true) /\
  (in_transaction s = true -> transaction_tracked (locals w b) = true).
Proof.
  intros Hr b s Hl. exact (flags_invariant pidof uid dbid lim n w Hr b s Hl).
Qed.

Lemma registered_slot_is_tracked_witness :
  let pidof := fun b : nat => Z.of_nat b + 100 in
  let w := run_ops pidof (fun _ => 10) (fun _ => 20) (fun _ _ => mkLimits (-1) (-1) 5 5 5 5 5 0)
             [OTxStart 0 true; OStmtStart 0 true CMD_UPDATE] (world_init 2) in
  (CMD_UPDATE <> CMD_UNKNOWN -> statement_tracked (locals w 0) = true) /\
  (true = true -> transaction_tracked (locals w 0) = true).
Proof.
  intros pidof w.
  apply (registered_slot_is_tracked pidof (fun _ => 10) (fun _ => 20) (fun _ _ => mkLimits (-1) (-1) 5 5 5 5 5 0)
           2 w ltac:(apply reach_step; [apply reach_step; [apply reach_init|simpl; lia]|simpl; lia])
           0 (mkStatus 100 10 20 CMD_UPDATE true)).
  vm_compute; reflexivity.
Defined.

(** X9: in a reachable state, the abort callback [qos_xact_callback] and
    the end of execution [qos_ExecutorEnd] (with [qos.enabled] on) leave
    backend [b]'s slot counted by no statement scan and no transaction
    scan, clear both of its tracking flags, and touch neither the other
    slots nor the statistics. *)
Theorem end_callbacks_release_slot pidof uid dbid lim n w b r :
  reachable pidof uid dbid lim n w -> (b < n)%nat ->
  (exists ev, (ev = XACT_EVENT_ABORT \/ ev = XACT_EVENT_PARALLEL_ABORT) /\
     r = qos_xact_callback ev true (proc_of pidof uid dbid b) (shm w) (locals w b)) \/
  r = qos_ExecutorEnd_tracking true (proc_of pidof uid dbid b) (shm w) (locals w b) ->
  let '(sh', loc') := r in
  (forall role db k, k <> CMD_UNKNOWN ->
     stmt_match role db k (slot_of (backend_status sh') b) = false) /\
  (forall role db, tx_match role db (slot_of (backend_status sh') b) = false) /\
  statement_tracked loc' = false /\ transaction_tracked loc' = false /\
  stats sh' = stats (shm w) /\
  (forall c, c <> b -> backend_status sh' !! c = backend_status (shm w) !! c).
Proof.
  intros Hr Hb Hwhich.
  assert (Hr' : r = qos_ExecutorEnd_tracking true (proc_of pidof uid dbid b) (shm w) (locals w b)).
  { destruct Hwhich as [(ev & [-> | ->] & ->) | ->]; reflexivity. }
  subst r.
  destruct (reachable_invariant pidof uid dbid lim n w Hr) as [Hok _].
  pose proof (flags_invariant pidof uid dbid lim n w Hr) as Hfl.
  set (l := backend_status (shm w)) in *.
  assert (Hlen : (b < length l)%nat) by (destruct Hok as [-> _]; exact Hb).
  pose proof (end_both_spec (proc_of pidof uid dbid b) (shm w) (locals w b) Hlen
                (Hfl b _ (slot_of_lookup l b Hlen))) as H.
  cbn [proc_of my_slot my_pid] in H.
  destruct (slot_of_ok pidof uid dbid n l b Hok Hb) as [He|(Hp & _)];
    [specialize (H (or_introl He))|specialize (H (or_intror Hp))];
  destruct (qos_ExecutorEnd_tracking true (proc_of pidof uid dbid b) (shm w) (locals w b))
    as [sh' loc'];
  destruct H as (C & I & S & T & St & N);
  (split; [intros role db k Hk; unfold stmt_match; rewrite C;
           destruct k; try (exfalso; apply Hk; reflexivity); apply andb_false_r|]);
  (split; [intros role db; unfold tx_match; rewrite I; apply andb_false_r|]);
  repeat split; assumption.
Qed.

Lemma end_callbacks_release_slot_witness :
  let pidof := fun b : nat => Z.of_nat b + 100 in
  let w := run_ops pidof (fun _ => 10) (fun _ => 20) (fun _ _ => mkLimits (-1) (-1) 5 5 5 5 5 0)
             [OTxStart 0 true; OStmtStart 0 true CMD_INSERT; OTxStart 1 true] (world_init 2) in
  let '(sh', loc') := qos_xact_callback XACT_EVENT_ABORT true
                        (proc_of pidof (fun _ => 10) (fun _ => 20) 0) (shm w) (locals w 0) in
  (forall role db k, k <> CMD_UNKNOWN ->
     stmt_match role db k (slot_of (backend_status sh') 0) = false) /\
  (forall role db, tx_match role db (slot_of (backend_status sh') 0) = false) /\
  statement_tracked loc' = false /\ transaction_tracked loc' = false /\
  stats sh' = stats (shm w) /\
  (forall c, c <> 0%nat -> backend_status sh' !! c = backend_status (shm w) !! c).
Proof.
  intros pidof w.
  apply (end_callbacks_release_slot pidof (fun _ => 10) (fun _ => 20) (fun _ _ => mkLimits (-1) (-1) 5 5 5 5 5 0)
           2 w 0).
  - apply reach_step; [apply reach_step; [apply reach_step; [apply reach_init|]|]|];
      simpl; lia.
  - lia.
  - left. exists XACT_EVENT_ABORT. split; [left; reflexivity|reflexivity].
Defined.

(** X10: in every state reachable by admission calls and
    [qos_reset_stats], [rejected_queries] is exactly the sum of the five
    concurrency violation counters: every refusal bumps one of them and
    [rejected_queries] together, and nothing else touches them. *)
Theorem rejected_equals_violations pidof uid dbid lim n w :
  reachable_rs pidof uid dbid lim n w ->
  rejected_queries (stats (shm w)) = concurrency_violations (stats (shm w)).
Proof.
  induction 1 as [|w o Hr IH Hb|w Hr IH].
  - reflexivity.
  - destruct (run_op_stats pidof uid dbid lim o w) as [E|[E|(op & Hop & Hl & E)]];
      rewrite E; [exact IH| |].
    + unfold concurrency_violations in *; simpl. lia.
    + unfold concurrency_violations in *.
      destruct op; simpl; try lia; exfalso; apply Hl; reflexivity.
  - reflexivity.
Qed.

Lemma rejected_equals_violations_witness :
  let pidof := fun b : nat => Z.of_nat b + 100 in
  let lim := fun _ _ : Z => mkLimits (-1) (-1) 1 1 (-1) (-1) (-1) 0 in
  let w := run_ops pidof (fun _ => 10) (fun _ => 20) lim
             [OTxStart 0 true; OTxStart 1 true; OStmtStart 0 true CMD_SELECT;
              OStmtStart 1 true CMD_SELECT] (world_init 2) in
  rejected_queries (stats (shm w)) = concurrency_violations (stats (shm w)).
Proof.
  intros pidof lim w.
  apply (rejected_equals_violations pidof (fun _ => 10) (fun _ => 20) lim 2 w).
  apply rs_op; [apply rs_op; [apply rs_op; [apply rs_op; [apply rs_init|]|]|]|];
    simpl; lia.
Defined.

(** X11: a bare number stored for [qos.work_mem_limit] is validated as a
    number of bytes, yet the reader rewrites the entry to megabytes and
    returns a limit 1048576 times larger. *)
Theorem bare_number_read_as_megabytes ds roleId cmdid st :
  digit_string ds -> decimal_value ds * 1048576 <= INT64_MAX ->
  last_cleaned_cmdid st <> cmdid ->
  qos_parse_memory_value ds = Some (decimal_value ds) /\
  let row := mkRow InvalidOid roleId (Some [Some ("qos.work_mem_limit=" ++ ds)%string]) in
  let '(l, _, cat', _) := qos_get_role_limits roleId cmdid [row] st in
  work_mem_limit l = decimal_value ds * 1048576 /\
  cat' = [mkRow InvalidOid roleId (Some [Some ("qos.work_mem_limit=" ++ ds ++ "MB")%string])].
Proof.
  intros Hds Hbig Hst. split; [apply bare_parse; assumption|].
  assert (Hsplit : split_at_eq ("qos.work_mem_limit=" ++ ds) = Some ("qos.work_mem_limit"%string, ds))
    by reflexivity.
  assert (Hv : qos_is_valid_qos_setting_entry ("qos.work_mem_limit=" ++ ds) = true).
  { unfold qos_is_valid_qos_setting_entry. rewrite Hsplit. cbv beta iota zeta. rewrite (bare_trim ds Hds).
    simpl.
    replace (qos_trim_whitespace "qos.work_mem_limit") with "qos.work_mem_limit"%string by reflexivity.
    unfold qos_apply_qos_param_value. cbv beta iota zeta. rewrite (bare_trim ds Hds), (bare_parse ds Hds Hbig).
    reflexivity. }
  remember ("qos.work_mem_limit=" ++ ds)%string as cfg eqn:Hcfg.
  assert (Hp : strncaseeq_prefix cfg "qos." = true) by (subst cfg; reflexivity).
  clear Hcfg.
  unfold qos_get_role_limits, qos_scan_limits, find_row. simpl. rewrite Z.eqb_refl. simpl.
  unfold qos_cleanup_invalid_qos_settings. simpl.
  replace (cmdid =? last_cleaned_cmdid st) with false by (symmetry; apply Z.eqb_neq; congruence).
  simpl. rewrite Hp, Hv, Hsplit. simpl.
  rewrite (bare_trim ds Hds), (bare_normalize ds Hds Hbig), (bare_mb_differs ds). simpl.
  split; [|reflexivity].
  replace (qos_trim_whitespace "qos.work_mem_limit") with "qos.work_mem_limit"%string by reflexivity.
  rewrite (bare_trim_mb ds Hds). unfold qos_apply_qos_param_value. cbv beta iota zeta.
  rewrite (bare_trim_mb ds Hds), (bare_parse_mb ds Hds Hbig). reflexivity.
Qed.

Lemma bare_number_read_as_megabytes_witness :
  digit_string "64" /\ decimal_value "64" * 1048576 <= INT64_MAX /\
  last_cleaned_cmdid clean_init <> 1 /\
  (qos_parse_memory_value "64" = Some (decimal_value "64") /\
   (let row := mkRow InvalidOid 10 (Some [Some ("qos.work_mem_limit=" ++ "64")%string]) in
    let '(l, _, cat', _) := qos_get_role_limits 10 1 [row] clean_init in
    work_mem_limit l = decimal_value "64" * 1048576 /\
    cat' = [mkRow InvalidOid 10 (Some [Some ("qos.work_mem_limit=" ++ "64" ++ "MB")%string])])).
Proof.
  assert (H1 : digit_string "64") by (split; [discriminate|reflexivity]).
  assert (H2 : decimal_value "64" * 1048576 <= INT64_MAX) by (apply Z.leb_le; reflexivity).
  assert (H3 : last_cleaned_cmdid clean_init <> 1) by (vm_compute; discriminate).
  split; [exact H1|split; [exact H2|split; [exact H3|]]].
  exact (bare_number_read_as_megabytes "64" 10 1 clean_init H1 H2 H3).
Defined.

(** X12: [qos_apply_qos_param_value] in lenient mode never raises; where it
    applies a value the strict mode applies the same value, and where it
    ignores a [qos.] setting the strict mode raises an error, while other
    names are ignored by both modes with the limits unchanged. *)
Theorem apply_param_strict_vs_lenient limits name value :
  match qos_apply_qos_param_value limits name value false with
  | Ret (true, l') => qos_apply_qos_param_value limits name value true = Ret (true, l')
  | Ret (false, l') => l' = limits /\
      (if strncaseeq_prefix name "qos."
       then exists e, qos_apply_qos_param_value limits name value true = Raise e
       else qos_apply_qos_param_value limits name value true = Ret (false, limits))
  | Raise _ => False
  end.
Proof. exact (apply_param_shape limits name value). Qed.

(** X13: [qos_cleanup_invalid_qos_settings] keeps every entry that is not a
    [qos.] setting, in order; when it writes a configuration back, that is
    the array handed on and it has no null element; otherwise the array is
    handed on unchanged. *)
Theorem cleanup_keeps_other_settings cmdid row configs st :
  let '(cleaned, upd, _) := qos_cleanup_invalid_qos_settings cmdid row configs st in
  List.filter is_non_qos_entry cleaned = List.filter is_non_qos_entry configs /\
  match upd with
  | Some nc => nc = cleaned /\ ~ In None cleaned
  | None => cleaned = configs
  end.
Proof.
  unfold qos_cleanup_invalid_qos_settings.
  destruct ((length configs =? 0)%nat); [split; reflexivity|].
  destruct ((cmdid =? last_cleaned_cmdid st) && (setdatabase row =? last_cleaned_db st)
            && (setrole row =? last_cleaned_role st)); [split; reflexivity|].
  pose proof (cleanup_loop_spec configs) as H.
  destruct (cleanup_loop configs) as [kept removed].
  destruct H as (Hf & Hn & _).
  destruct removed; simpl; [split; [exact Hf|split; [reflexivity|exact Hn]]|split; reflexivity].
Qed.

(** X14: [qos_normalize_work_mem_value] is idempotent: a normalized value
    is a digit string followed by [kB], [MB] or [GB] and normalizes to
    itself. *)
Theorem normalize_idempotent v nv :
  qos_normalize_work_mem_value v = Some nv -> qos_normalize_work_mem_value nv = Some nv.
Proof.
  intros H. unfold qos_normalize_work_mem_value in H. cbv zeta in H.
  destruct (span isdigit (skip_space v)) as [num ptr] eqn:Es.
  destruct (String.eqb num "") eqn:Ee; [discriminate|].
  destruct (span isalpha (skip_space ptr)) as [unit ptr'] eqn:Eu.
  destruct (negb (String.eqb ptr' "")); [discriminate|].
  assert (Hd : digit_string num)
    by (split; [apply String.eqb_neq in Ee; exact Ee|eapply span_digits_all; exact Es]).
  destruct (String.eqb unit "");
    [injection H as <-; apply normalize_digits_unit; auto|].
  destruct (strcaseeq unit "k" || strcaseeq unit "kb");
    [injection H as <-; apply normalize_digits_unit; auto|].
  destruct (strcaseeq unit "m" || strcaseeq unit "mb");
    [injection H as <-; apply normalize_digits_unit; auto|].
  destruct (strcaseeq unit "g" || strcaseeq unit "gb");
    [injection H as <-; apply normalize_digits_unit; auto|discriminate].
Qed.

Lemma normalize_idempotent_witness :
  qos_normalize_work_mem_value " 64 mb" = Some "64MB"%string /\
  qos_normalize_work_mem_value "64MB" = Some "64MB"%string.
Proof.
  split; [reflexivity|].
  apply (normalize_idempotent " 64 mb" "64MB"). reflexivity.
Defined.

(** X15: whatever the catalog holds, the limits read by
    [qos_get_role_limits] and [qos_get_database_limits] lie in range:
    [work_mem_limit] in [-1, INT64_MAX], the core and concurrency limits
    in [-1, INT_MAX] and the error level in [-1, 1]. *)
Theorem reader_limits_in_range roleId dbId cmdid cat st :
  (let '(l, _, _, _) := qos_get_role_limits roleId cmdid cat st in limits_in_range l) /\
  (let '(l, _, _, _) := qos_get_database_limits dbId cmdid cat st in limits_in_range l).
Proof. split; apply scan_limits_range. Qed.

(** X16: in [qos_parse_memory_unit] the unit is compared with the whole
    rest of the string, so a unit written after a blank is ignored and the
    number is taken as bytes; [qos_enforce_work_mem_limit] then lets
    [SET work_mem = 'N <unit>'] through whenever N itself is within the
    limit, whatever the unit. *)
Theorem work_mem_unit_after_blank_ignored ds u limits shm st :
  digit_string ds -> decimal_value ds <= INT64_MAX ->
  decimal_value ds <= work_mem_limit limits ->
  qos_parse_memory_unit (ds ++ String " " u) = decimal_value ds /\
  qos_enforce_work_mem_limit true limits shm
    (Some (mkSetStmt VAR_SET_VALUE (Some "work_mem"%string) [ArgString (ds ++ String " " u)]))
    st = WmDone st.
Proof.
  intros Hds Hmax Hle.
  assert (Hp : qos_parse_memory_unit (ds ++ String " " u) = decimal_value ds).
  { unfold qos_parse_memory_unit.
    rewrite (strtoll_digits ds (String " " u) Hds); [|intros c r H; injection H as <- _; reflexivity|exact Hmax].
    simpl. reflexivity. }
  split; [exact Hp|].
  assert (Hn : 0 <= decimal_value ds) by (apply decimal_nonneg; [apply Hds|lia]).
  unfold qos_enforce_work_mem_limit. simpl. rewrite Hp.
  destruct (work_mem_limit limits <? 0) eqn:E; [apply Z.ltb_lt in E; lia|].
  rewrite Z.gtb_ltb. destruct (work_mem_limit limits <? decimal_value ds) eqn:E2;
    [apply Z.ltb_lt in E2; lia|reflexivity].
Qed.

Lemma work_mem_unit_after_blank_ignored_witness :
  digit_string "100" /\ decimal_value "100" <= INT64_MAX /\
  decimal_value "100" <= work_mem_limit (mkLimits 1048576 (-1) (-1) (-1) (-1) (-1) (-1) 0) /\
  (qos_parse_memory_unit ("100" ++ String " " "GB") = decimal_value "100" /\
   qos_enforce_work_mem_limit true (mkLimits 1048576 (-1) (-1) (-1) (-1) (-1) (-1) 0) (Some 0)
     (Some (mkSetStmt VAR_SET_VALUE (Some "work_mem"%string) [ArgString ("100" ++ String " " "GB")]))
     (wm_init 4096) = WmDone (wm_init 4096)).
Proof.
  assert (H1 : digit_string "100") by (split; [discriminate|reflexivity]).
  assert (H2 : decimal_value "100" <= INT64_MAX) by (apply Z.leb_le; reflexivity).
  assert (H3 : decimal_value "100" <= work_mem_limit (mkLimits 1048576 (-1) (-1) (-1) (-1) (-1) (-1) 0))
    by (apply Z.leb_le; reflexivity).
  split; [exact H1|split; [exact H2|split; [exact H3|]]].
  exact (work_mem_unit_after_blank_ignored "100" "GB" _ (Some 0) (wm_init 4096) H1 H2 H3).
Defined.

(** X17: with [qos_shared_state] present, [next_cpu_core] in
    [0, total_cores) and no 32-bit overflow of [next_cpu_core +
    total_cores], [qos_select_least_busy_cores] chooses
    [min(requested_cores, total_cores)] distinct cores, each in
    [0, total_cores), whether the perf measurements succeed or the
    round-robin fallback is taken, and leaves [next_cpu_core] in
    [0, total_cores). *)
Theorem select_cores_distinct_in_range requested total measure s :
  0 < requested -> 0 < total -> 0 <= s < total -> s + total <= INT_MAX ->
  let '(n, sel, next') := qos_select_least_busy_cores requested total measure (Some s) in
  n = Z.min requested total /\ length sel = Z.to_nat n /\ NoDup sel /\
  Forall (fun c => 0 <= c < total) sel /\
  (exists s', next' = Some s' /\ 0 <= s' < total).
Proof.
  intros Hr Ht Hs Hmax. unfold qos_select_least_busy_cores.
  replace ((requested <=? 0) || (total <=? 0)) with false
    by (symmetry; apply orb_false_iff; split; apply Z.leb_gt; lia).
  assert (Hreq : (if requested >? total then total else requested) = Z.min requested total)
    by (destruct (Z.gtb_spec requested total); lia).
  rewrite Hreq. cbv zeta.
  set (r := Z.min requested total).
  assert (Hr1 : 0 < r <= total) by (unfold r; lia).
  destruct (Nat.eqb _ 0).
  - split; [reflexivity|split; [rewrite length_map, length_seq; reflexivity|split; [|split]]].
    + apply NoDup_ListNoDup, NoDup_map_NoDup_ForallPairs; [|apply seq_NoDup].
      intros a b Ha Hb E. apply in_seq in Ha, Hb.
      rewrite !wrap32_small in E by lia.
      destruct (rem_two_range (s + Z.of_nat a) total) as [Ea|Ea]; try lia;
      destruct (rem_two_range (s + Z.of_nat b) total) as [Eb|Eb]; lia.
    + apply Forall_forall. intros x Hx. apply list_elem_of_In, in_map_iff in Hx as (a & <- & Ha).
      apply in_seq in Ha. rewrite wrap32_small by lia.
      destruct (rem_two_range (s + Z.of_nat a) total); lia.
    + eexists; split; [reflexivity|]. rewrite wrap32_small by lia.
      destruct (rem_two_range (s + r) total); lia.
  - destruct (sorted_indices_inv (Z.to_nat total)) as (H1 & H2 & H3).
    destruct (selection_pass_inv (map measure (map Z.of_nat (seq 0 (Z.to_nat total))))
                (Z.to_nat total) (Z.to_nat r) 0 _ ltac:(lia) H1 H2 H3) as (L1 & L2 & L3).
    split; [reflexivity|split; [|split; [|split]]].
    + rewrite length_take, L1. lia.
    + rewrite <- (take_drop (Z.to_nat r)) in L2. apply NoDup_app in L2. apply L2.
    + apply Forall_take. rewrite Z2Nat.id in L3 by lia. exact L3.
    + exists s. split; [reflexivity|exact Hs].
Qed.

Lemma select_cores_distinct_in_range_witness :
  0 < 3 /\ 0 < 8 /\ 0 <= 6 < 8 /\ 6 + 8 <= INT_MAX /\
  (let '(n, sel, next') := qos_select_least_busy_cores 3 8 (fun _ => -1) (Some 6) in
   n = Z.min 3 8 /\ length sel = Z.to_nat n /\ NoDup sel /\
   Forall (fun c => 0 <= c < 8) sel /\
   (exists s', next' = Some s' /\ 0 <= s' < 8)).
Proof.
  assert (H1 : 0 < 3) by lia. assert (H2 : 0 < 8) by lia. assert (H3 : 0 <= 6 < 8) by lia.
  assert (H4 : 6 + 8 <= INT_MAX) by (apply Z.leb_le; reflexivity).
  split; [exact H1|split; [exact H2|split; [exact H3|split; [exact H4|]]]].
  exact (select_cores_distinct_in_range 3 8 (fun _ => -1) 6 H1 H2 H3 H4).
Defined.

(** X18: in every affinity table reachable by any interleaving of the
    critical sections of [qos_get_or_assign_cores] (with a possibly stale
    [empty_slot]), the table keeps its [MAX_AFFINITY_ENTRIES] slots and no
    occupied key [(database_oid, role_oid)] is held by two slots. *)
Theorem affinity_table_keys_unique entries :
  aff_reachable entries ->
  length entries = MAX_AFFINITY_ENTRIES /\ affinity_keys_unique entries.
Proof.
  induction 1 as [|entries db role k req nc asg Hr [Hlen Hu] Hk].
  - split; [reflexivity|]. intros i j e1 e2 H1 _ Hne _ _.
    apply lookup_In_list, repeat_spec in H1. subst e1. exfalso. apply Hne. reflexivity.
  - unfold qos_store_assignment.
    destruct (List.find (key_is db role) entries) as [e|] eqn:Ef; [split; assumption|].
    pose proof (List.find_none _ _ Ef) as Hnone.
    destruct (negb (k =? -1)) eqn:Ek; simpl.
    + split; [rewrite length_insert; exact Hlen|].
      apply insert_keys_unique; [exact Hu|]. exact Hnone.
    + destruct entries as [|e0 rest]; [discriminate Hlen|].
      assert (Hl : length rest = 127%nat) by (simpl in Hlen; unfold MAX_AFFINITY_ENTRIES in Hlen; lia).
      change (drop 1 (e0 :: rest)) with rest. rewrite take_ge by lia.
      split; [rewrite length_app, Hl; reflexivity|].
      apply (append_keys_unique e0); [exact Hu|].
      intros x Hx. apply Hnone. right. exact Hx.
Qed.

Lemma affinity_table_keys_unique_witness :
  let entries := snd (qos_store_assignment 16384 10 0 2 2 [0; 1] (affinity_entries aff_init)) in
  aff_reachable entries /\
  length entries = MAX_AFFINITY_ENTRIES /\ affinity_keys_unique entries.
Proof.
  assert (H : aff_reachable (snd (qos_store_assignment 16384 10 0 2 2 [0; 1]
                                     (affinity_entries aff_init))))
    by (apply aff_store; [exact aff_start|right; split; [lia|reflexivity]]).
  split; [exact H|].
  exact (affinity_table_keys_unique _ H).
Defined.

(** X19: the slot found free by the first critical section of
    [qos_get_or_assign_cores] is not re-checked in the second one: when
    two backends with different keys both find slot [k] free and both
    store, the second store overwrites the first backend's entry, whose
    key is then no longer in the table. *)
Theorem concurrent_assignment_lost db1 role1 db2 role2 k entries r1 n1 a1 r2 n2 a2 :
  (db1 <> db2 \/ role1 <> role2) -> 0 <= k ->
  scan_entries db1 role1 0 entries (-1) = (None, k) ->
  scan_entries db2 role2 0 entries (-1) = (None, k) ->
  let entries1 := snd (qos_store_assignment db2 role2 k r2 n2 a2 entries) in
  let entries2 := snd (qos_store_assignment db1 role1 k r1 n1 a1 entries1) in
  List.find (key_is db2 role2) entries1 <> None /\
  List.find (key_is db1 role1) entries2 <> None /\
  List.find (key_is db2 role2) entries2 = None.
Proof.
  intros Hne Hk S1 S2 entries1 entries2.
  destruct (scan_entries_none _ _ _ _ _ _ S1) as [F1 [E1|R1]]; [lia|].
  destruct (scan_entries_none _ _ _ _ _ _ S2) as [F2 _].
  pose proof (List.find_none _ _ F1) as N1. pose proof (List.find_none _ _ F2) as N2.
  assert (Hkl : (Z.to_nat k < length entries)%nat) by lia.
  assert (Ek : negb (k =? -1) = true) by (apply negb_true_iff, Z.eqb_neq; lia).
  set (w2 := write_entry db2 role2 n2 a2 (nth (Z.to_nat k) entries empty_entry)).
  assert (Hs1 : entries1 = <[Z.to_nat k := w2]> entries)
    by (unfold entries1, qos_store_assignment; rewrite F2, Ek; reflexivity).
  assert (Hne' : db2 <> db1 \/ role2 <> role1) by (destruct Hne; [left|right]; congruence).
  assert (G1 : List.find (key_is db1 role1) entries1 = None).
  { rewrite Hs1. apply insert_find_none; [exact Hkl| |apply key_is_write_ne; exact Hne'].
    intros i x _ Hx. apply N1. eapply lookup_In_list. exact Hx. }
  set (w1 := write_entry db1 role1 n1 a1 (nth (Z.to_nat k) entries1 empty_entry)).
  assert (Hl1 : length entries1 = length entries) by (rewrite Hs1, length_insert; reflexivity).
  assert (Hs2 : entries2 = <[Z.to_nat k := w1]> entries1)
    by (unfold entries2, qos_store_assignment; rewrite G1, Ek; reflexivity).
  assert (Found : forall db role l w, (Z.to_nat k < length l)%nat ->
            key_is db role w = true -> List.find (key_is db role) (<[Z.to_nat k := w]> l) <> None).
  { intros db role l w Hk' Hw Hf.
    pose proof (List.find_none _ _ Hf w) as C. rewrite Hw in C. discriminate C.
    eapply lookup_In_list. apply list_lookup_insert_eq. exact Hk'. }
  split; [|split].
  - rewrite Hs1. apply Found; [exact Hkl|apply key_is_eq; reflexivity].
  - rewrite Hs2. apply Found; [lia|apply key_is_eq; reflexivity].
  - rewrite Hs2. apply insert_find_none; [lia| |apply key_is_write_ne; exact Hne].
    intros i x Hi Hx. rewrite Hs1, list_lookup_insert_ne in Hx by congruence.
    apply N2. eapply lookup_In_list. exact Hx.
Qed.

Lemma concurrent_assignment_lost_witness :
  (16384 <> 16384 \/ 10 <> 20) /\ 0 <= 0 /\
  scan_entries 16384 10 0 (affinity_entries aff_init) (-1) = (None, 0) /\
  scan_entries 16384 20 0 (affinity_entries aff_init) (-1) = (None, 0) /\
  (let entries1 := snd (qos_store_assignment 16384 20 0 2 2 [0; 1] (affinity_entries aff_init)) in
   let entries2 := snd (qos_store_assignment 16384 10 0 2 2 [2; 3] entries1) in
   List.find (key_is 16384 20) entries1 <> None /\
   List.find (key_is 16384 10) entries2 <> None /\
   List.find (key_is 16384 20) entries2 = None).
Proof.
  assert (H1 : 16384 <> 16384 \/ 10 <> 20) by (right; lia).
  assert (H2 : 0 <= 0) by lia.
  assert (H3 : scan_entries 16384 10 0 (affinity_entries aff_init) (-1) = (None, 0))
    by (vm_compute; reflexivity).
  assert (H4 : scan_entries 16384 20 0 (affinity_entries aff_init) (-1) = (None, 0))
    by (vm_compute; reflexivity).
  split; [exact H1|split; [exact H2|split; [exact H3|split; [exact H4|]]]].
  exact (concurrent_assignment_lost 16384 10 16384 20 0 (affinity_entries aff_init)
           2 2 [2; 3] 2 2 [0; 1] H1 H2 H3 H4).
Defined.

(** X20: [qos_trim_whitespace] is idempotent: a trimmed string has no
    leading and no trailing blank, so trimming it again changes nothing. *)
Theorem trim_whitespace_idempotent s :
  qos_trim_whitespace (qos_trim_whitespace s) = qos_trim_whitespace s.
Proof.
  set (L := list_ascii_of_string (skip_space s)).
  set (D := drop_trailing_space_rev (rev L)).
  assert (Ht : qos_trim_whitespace s = string_of_list_ascii (rev D)) by reflexivity.
  rewrite Ht. unfold qos_trim_whitespace.
  rewrite skip_space_id.
  - rewrite list_ascii_of_string_of_list_ascii, rev_involutive, drop_trailing_head_id;
      [reflexivity|apply drop_trailing_head].
  - rewrite list_ascii_of_string_of_list_ascii.
    destruct (drop_trailing_suffix (rev L)) as [p Hp]. fold D in Hp.
    assert (HL : L = rev D ++ rev p)
      by (rewrite <- rev_app_distr, <- Hp, rev_involutive; reflexivity).
    pose proof (skip_space_head s) as Hh. fold L in Hh. rewrite HL in Hh.
    destruct (rev D) as [|c r]; [exact I|exact Hh].
Qed.

(** X21: once [qos_get_or_assign_cores] has stored a new assignment for
    [(database_oid, role_oid)] (at most [MAX_CORES_PER_ENTRY] cores), the
    next call for the same key reuses it: same number of cores, the same
    cores first in [assigned_cores], no new selection and no change of
    the shared state. *)
Theorem new_assignment_reused db role r total measure measure' st assigned assigned' n1 as1 sh1 :
  List.find (key_is db role) (affinity_entries st) = None ->
  qos_get_or_assign_cores db role r total measure (Some st) assigned = (n1, as1, sh1) ->
  0 < n1 -> n1 <= Z.of_nat MAX_CORES_PER_ENTRY ->
  let '(n2, as2, sh2) := qos_get_or_assign_cores db role r total measure' sh1 assigned' in
  n2 = n1 /\ sh2 = sh1 /\ take (Z.to_nat n1) as2 = take (Z.to_nat n1) as1.
Proof.
  intros Hf Hc Hn1 Hmax. unfold qos_get_or_assign_cores in Hc.
  destruct (r <=? 0) eqn:Er; [injection Hc as <- _ _; lia|].
  pose proof (scan_entries_find db role (affinity_entries st) 0 (-1)) as Hs.
  destruct (scan_entries db role 0 (affinity_entries st) (-1)) as [[e|] es] eqn:Es;
    simpl in Hs; [congruence|].
  pose proof (select_shape r total measure (Some (next_cpu_core st))) as Hsel.
  destruct (qos_select_least_busy_cores r total measure (Some (next_cpu_core st)))
    as [[ncores sel] nx] eqn:Esel.
  destruct Hsel as [Hlen Hnc].
  destruct (ncores <=? 0) eqn:En; [injection Hc as <- _ _; lia|].
  destruct Hnc as [->|(_ & _ & Hnc)]; [discriminate En|].
  assert (Hnr : ncores <= r) by lia.
  simpl in Hc. unfold qos_store_assignment in Hc. rewrite Hf in Hc.
  set (assigned1 := copy_cores (length sel) sel assigned) in Hc.
  assert (Ha1 : (Z.to_nat ncores <= length assigned1)%nat)
    by (unfold assigned1; rewrite <- Hlen; apply copy_cores_length_ge; lia).
  pose proof (List.find_none _ _ Hf) as Hnone.
  assert (Hnn : ncores = n1)
    by (destruct (negb (es =? -1)); cbv iota in Hc; injection Hc as H _ _; exact H).
  assert (Reuse : forall entries' old,
    List.find (key_is db role) entries' = Some (write_entry db role ncores assigned1 old) ->
    let '(n2, as2, sh2) := qos_get_or_assign_cores db role r total measure'
          (Some (mkAffState (default (next_cpu_core st) nx) entries')) assigned' in
    n2 = ncores /\ sh2 = Some (mkAffState (default (next_cpu_core st) nx) entries') /\
    take (Z.to_nat ncores) as2 = take (Z.to_nat ncores) assigned1).
  { intros entries' old Hfind. unfold qos_get_or_assign_cores. rewrite Er. simpl.
    pose proof (scan_entries_find db role entries' 0 (-1)) as Hs'. rewrite Hfind in Hs'.
    destruct (scan_entries db role 0 entries' (-1)) as [[e|] es'];
      simpl in Hs'; [injection Hs' as ->|discriminate].
    simpl. split; [reflexivity|split; [reflexivity|]].
    replace (Z.min ncores r) with ncores by lia.
    assert (Hm : Nat.min (Z.to_nat ncores) MAX_CORES_PER_ENTRY = Z.to_nat ncores) by lia.
    rewrite Hm.
    rewrite copy_cores_take by (apply copy_cores_length_ge; exact Ha1).
    apply copy_cores_take. exact Ha1. }
  destruct (negb (es =? -1)) eqn:Ees; injection Hc as <- <- <-.
  - destruct (scan_entries_none _ _ _ _ _ _ Es) as [_ [E|R]];
      [apply negb_true_iff, Z.eqb_neq in Ees; lia|].
    eapply Reuse. apply find_insert_first; [exact Hnone|apply key_is_eq; reflexivity|lia].
  - eapply Reuse. apply find_app_last; [|apply key_is_eq; reflexivity].
    intros x Hx. apply Hnone. eapply In_take_drop. exact Hx.
Qed.

Lemma new_assignment_reused_witness :
  let c := qos_get_or_assign_cores 16384 10 2 4 (fun _ => -1) (Some aff_init) [0; 0] in
  List.find (key_is 16384 10) (affinity_entries aff_init) = None /\
  c = (fst (fst c), snd (fst c), snd c) /\
  0 < fst (fst c) /\ fst (fst c) <= Z.of_nat MAX_CORES_PER_ENTRY /\
  (let '(n2, as2, sh2) := qos_get_or_assign_cores 16384 10 2 4 (fun _ => 7) (snd c) [5; 5] in
   n2 = fst (fst c) /\ sh2 = snd c /\
   take (Z.to_nat (fst (fst c))) as2 = take (Z.to_nat (fst (fst c))) (snd (fst c))).
Proof.
  intros c.
  assert (H1 : List.find (key_is 16384 10) (affinity_entries aff_init) = None)
    by (vm_compute; reflexivity).
  assert (H2 : c = (fst (fst c), snd (fst c), snd c)) by (vm_compute; reflexivity).
  assert (H3 : 0 < fst (fst c)) by (vm_compute; reflexivity).
  assert (H4 : fst (fst c) <= Z.of_nat MAX_CORES_PER_ENTRY) by (vm_compute; discriminate).
  split; [exact H1|split; [exact H2|split; [exact H3|split; [exact H4|]]]].
  exact (new_assignment_reused 16384 10 2 4 (fun _ => -1) (fun _ => 7) aff_init [0; 0] [5; 5]
           _ _ _ H1 H2 H3 H4).
Defined.

End Extras.
